(** * xinterp: the [interp] accessor of labelled arrays

    A shallow embedding of [src/xinterp/xinterp.py] (class [Interpolater]:
    [interp1d], [interpn], [_interpn], [smart]) and the properties of its
    dimension reconciliation and dispatch.

    The interpolation kernels themselves ([scipy.interpolate.interp1d] and
    [scipy.interpolate.RegularGridInterpolator]) are outside the program:
    they are section variables.  The array bookkeeping that the program
    relies on (numpy shapes, row-major buffers, [repeat], [broadcast_to],
    [reshape], [transpose], the [DataArray] constructor and its size check)
    is written out. *)

From Stdlib Require Import QArith.
From stdpp Require Import prelude strings gmap.

Set Default Proof Using "Type".

(** ** Python exceptions and the error monad *)

Inductive exn :=
  | IndexError                       (* list index out of range *)
  | KeyError (k : string)            (* mapping lookup of a missing key *)
  | ValueError (msg : string)        (* tuple.index, numpy/xarray/scipy checks *)
  | NotImplementedError
  | TypeError (msg : string)         (* a float where an integer is required *)
  | UnboundLocalError (var : string). (* local variable read before assignment *)

Inductive result (A : Type) :=
  | Ok (a : A)
  | Raise (e : exn).
Arguments Ok {A} a.
Arguments Raise {A} e.

#[global] Instance result_ret : MRet result := λ A a, Ok a.
#[global] Instance result_bind : MBind result := λ A B f m,
  match m with Ok a => f a | Raise e => Raise e end.
#[global] Instance result_fmap : FMap result := λ A B f m,
  match m with Ok a => Ok (f a) | Raise e => Raise e end.

Definition is_Ok {A} (m : result A) : Prop := ∃ a, m = Ok a.

(** The computation does not raise [NotImplementedError]. *)
Definition no_NIE {A} (m : result A) : Prop := m ≠ Raise NotImplementedError.



(** ** Scalars

    [F] stands for the machine floats.  Only the operations the program
    itself performs on them are needed: the constants of [1j], the arithmetic
    of [a + 1j * b], and the test [x != 0] (behind [np.iscomplex] and behind
    the truth value of a number). *)

Class Float (F : Type) := {
  fzero : F;
  fone : F;
  fadd : F → F → F;
  fsub : F → F → F;
  fmul : F → F → F;
  fnonzero : F → bool;
}.

(** An element of a numpy buffer: a real, or a complex with its two parts.
    (A buffer is homogeneous; the tag is carried by every element.) *)
Inductive scalar (F : Type) :=
  | SReal (a : F)
  | SComplex (re im : F).
Arguments SReal {F} a.
Arguments SComplex {F} re im.

(** Values a caller can pass for [fill_value]. *)
Inductive pyvalue (F : Type) :=
  | PyNone
  | PyBool (b : bool)
  | PyInt (z : Z)
  | PyFloat (x : F)
  | PyStr (s : string).
Arguments PyNone {F}.
Arguments PyBool {F} b.
Arguments PyInt {F} z.
Arguments PyFloat {F} x.
Arguments PyStr {F} s.

(** ** Shapes and row-major indexing *)

(** [np.prod] of a shape. *)
Definition np_prod (s : list nat) : nat := foldr Nat.mul 1 s.

(** All multi-indices of a shape, in row-major (C) order. *)
Fixpoint indices (s : list nat) : list (list nat) :=
  match s with
  | [] => [[]]
  | n :: s' => i ← seq 0 n; (cons i) <$> indices s'
  end.

(** Offset of a multi-index in the row-major buffer. *)
Fixpoint ravel (s idx : list nat) : nat :=
  match s, idx with
  | _ :: s', i :: idx' => i * np_prod s' + ravel s' idx'
  | _, _ => 0
  end.

(** [idx] is a valid multi-index of an array of shape [s]. *)
Definition in_bounds (s idx : list nat) : Prop := Forall2 lt idx s.

Record ndarray (F : Type) := NdArray {
  shape : list nat;
  buffer : list (scalar F);
}.
Arguments NdArray {F} shape buffer.
Arguments shape {F} _.
Arguments buffer {F} _.

(** The invariant of a numpy array: the buffer has one element per index. *)
Definition wf_ndarray {F} (a : ndarray F) : Prop :=
  length (buffer a) = np_prod (shape a).

Section arrays.
Context {F : Type} `{Float F}.

(** [a[idx]] for a full multi-index. *)
Definition item (a : ndarray F) (idx : list nat) : scalar F :=
  default (SReal fzero) (buffer a !! ravel (shape a) idx).

(** The array of shape [s] whose element at [idx] is [f idx]. *)
Definition tabulate (s : list nat) (f : list nat → scalar F) : ndarray F :=
  NdArray s (f <$> indices s).

Definition map_array (f : scalar F → scalar F) (a : ndarray F) : ndarray F :=
  NdArray (shape a) (f <$> buffer a).
End arrays.

(** ** Python sequences and mappings *)

Section python.
Context {A : Type}.

(** [l[i]]: [IndexError] out of range. *)
Definition py_getitem (l : list A) (i : nat) : result A :=
  match l !! i with
  | Some x => Ok x
  | None => Raise IndexError
  end.

(** [t.index(k)]: position of the first occurrence, [ValueError] if none. *)
Definition tuple_index `{EqDecision A} (t : list A) (k : A) : result nat :=
  match list_find (k =.) t with
  | Some (i, _) => Ok i
  | None => Raise (ValueError "tuple.index(x): x not in tuple")
  end.

(** Position of the first occurrence of [k] in [t] (0 if there is none). *)
Definition index_of `{EqDecision A} (k : A) (t : list A) : nat :=
  default 0 (fst <$> list_find (k =.) t).

(** Lookup in an insertion-ordered mapping with string keys. *)
Fixpoint dict_get (m : list (string * A)) (k : string) : option A :=
  match m with
  | [] => None
  | (k', v) :: m' => if decide (k = k') then Some v else dict_get m' k
  end.

(** [m[k]]: [KeyError] when the key is missing. *)
Definition dict_getitem (m : list (string * A)) (k : string) : result A :=
  match dict_get m k with
  | Some v => Ok v
  | None => Raise (KeyError k)
  end.

(** [m[k] = v]: an existing key keeps its position, a new key goes last. *)
Fixpoint dict_setitem (m : list (string * A)) (k : string) (v : A)
    : list (string * A) :=
  match m with
  | [] => [(k, v)]
  | (k', v') :: m' =>
      if decide (k = k') then (k, v) :: m' else (k', v') :: dict_setitem m' k v
  end.
End python.

(** A library call: its only failure is a [ValueError] with a message. *)
Definition lib {A} (r : string + A) : result A :=
  match r with
  | inl msg => Raise (ValueError msg)
  | inr a => Ok a
  end.

(** ** numpy *)

Section numpy.
Context {F : Type} `{Float F}.

Definition to_complex (z : scalar F) : F * F :=
  match z with
  | SReal a => (a, fzero)
  | SComplex a b => (a, b)
  end.

(** [x + y] with numpy's promotion: real with real stays real. *)
Definition scalar_add (x y : scalar F) : scalar F :=
  match x, y with
  | SReal a, SReal b => SReal (fadd a b)
  | _, _ =>
      let '(a, b) := to_complex x in
      let '(c, d) := to_complex y in
      SComplex (fadd a c) (fadd b d)
  end.

(** [x * y]; the complex product is [(ac - bd) + (ad + bc)j]. *)
Definition scalar_mul (x y : scalar F) : scalar F :=
  match x, y with
  | SReal a, SReal b => SReal (fmul a b)
  | _, _ =>
      let '(a, b) := to_complex x in
      let '(c, d) := to_complex y in
      SComplex (fsub (fmul a c) (fmul b d)) (fadd (fmul a d) (fmul b c))
  end.

(** The literal [1j]. *)
Definition imag_unit : scalar F := SComplex fzero fone.

Definition scalar_real (z : scalar F) : scalar F :=
  match z with
  | SReal a => SReal a
  | SComplex a _ => SReal a
  end.

Definition scalar_imag (z : scalar F) : scalar F :=
  match z with
  | SReal _ => SReal fzero
  | SComplex _ b => SReal b
  end.

(** [np.iscomplex] on one element: the imaginary part is not zero. *)
Definition scalar_iscomplex (z : scalar F) : bool :=
  match z with
  | SReal _ => false
  | SComplex _ b => fnonzero b
  end.

Definition np_real (a : ndarray F) : ndarray F := map_array scalar_real a.
Definition np_imag (a : ndarray F) : ndarray F := map_array scalar_imag a.

(** [np.any(np.iscomplex(a))]. *)
Definition np_any_iscomplex (a : ndarray F) : bool :=
  existsb scalar_iscomplex (buffer a).

(** [c * a] for a Python scalar [c]. *)
Definition np_rmul (c : scalar F) (a : ndarray F) : ndarray F :=
  map_array (scalar_mul c) a.

(** numpy's broadcasting of two shapes, aligned on their last axes. *)
Fixpoint broadcast_rev (r1 r2 : list nat) : option (list nat) :=
  match r1, r2 with
  | [], r | r, [] => Some r
  | m :: r1', n :: r2' =>
      r ← broadcast_rev r1' r2';
      if decide (m = n) then Some (m :: r)
      else if decide (m = 1) then Some (n :: r)
      else if decide (n = 1) then Some (m :: r)
      else None
  end.

Definition broadcast_shapes (s1 s2 : list nat) : result (list nat) :=
  match broadcast_rev (reverse s1) (reverse s2) with
  | Some r => Ok (reverse r)
  | None =>
      Raise (ValueError "operands could not be broadcast together")
  end.

(** The index of the source element that a broadcast result reads at
    [idx]: the last [length s] positions, with 0 on the axes of extent 1. *)
Definition broadcast_index (s idx : list nat) : list nat :=
  zip_with (λ n i, if decide (n = 1) then 0 else i)
           s (drop (length idx - length s) idx).

(** [a + b]. *)
Definition np_add (a b : ndarray F) : result (ndarray F) :=
  s ← broadcast_shapes (shape a) (shape b);
  Ok (tabulate s (λ idx,
        scalar_add (item a (broadcast_index (shape a) idx))
                   (item b (broadcast_index (shape b) idx)))).

(** [np.broadcast_to(a, s)]. *)
Definition np_broadcast_to (a : ndarray F) (s : list nat)
    : result (ndarray F) :=
  match broadcast_rev (reverse (shape a)) (reverse s) with
  | Some r =>
      if decide (reverse r = s) then
        Ok (tabulate s (λ idx, item a (broadcast_index (shape a) idx)))
      else Raise (ValueError "input operand has more dimensions than allowed")
  | None =>
      Raise (ValueError "operands could not be broadcast together")
  end.

(** [np.repeat(a, n, axis)]: every element is repeated [n] times along
    [axis].  (The program indexes [shape] at [axis] before it calls this,
    so [axis] is in range.) *)
Definition np_repeat (a : ndarray F) (n axis : nat) : ndarray F :=
  tabulate (alter (λ m, m * n) axis (shape a))
           (λ idx, item a (alter (λ i, i / n) axis idx)).

(** [np.reshape(a, s)]: same buffer, new shape of the same size. *)
Definition np_reshape (a : ndarray F) (s : list nat) : result (ndarray F) :=
  if decide (np_prod (shape a) = np_prod s) then Ok (NdArray s (buffer a))
  else Raise (ValueError "cannot reshape array").

(** [np.squeeze(a)]: the axes of extent 1 are removed. *)
Definition np_squeeze (a : ndarray F) : ndarray F :=
  NdArray (filter (λ n, n ≠ 1) (shape a)) (buffer a).

(** [np.transpose(a, axes)]: axis [j] of the result is axis [axes[j]] of
    [a]; [axes] must be a permutation of [range(a.ndim)]. *)
Definition np_transpose (a : ndarray F) (axes : list nat)
    : result (ndarray F) :=
  if decide (length axes = length (shape a) ∧ NoDup axes
             ∧ Forall (λ i, i < length (shape a)) axes) then
    Ok (tabulate ((λ ax, default 0 (shape a !! ax)) <$> axes)
          (λ idx, item a ((λ i, default 0 (idx !! index_of i axes))
                            <$> seq 0 (length (shape a)))))
  else Raise (ValueError "axes don't match array").

(** The query points of [_interpn]:
    the transpose of the [d] index-ordered ("ij") mesh grids of the sample
    vectors reshaped to [d] rows of [N] entries, that is the [N] rows of
    [d] coordinates of the Cartesian product of the sample vectors, the
    last axis varying fastest. *)
Fixpoint grid_points (points : list (list F)) : list (list F) :=
  match points with
  | [] => [[]]
  | p :: ps => x ← p; (cons x) <$> grid_points ps
  end.
End numpy.

(** ** xarray *)

(** A labelled array: the buffer, the axis names in order, and the
    coordinate vector of each named axis (an insertion-ordered mapping). *)
Record DataArray (F : Type) := mkDataArray {
  data : ndarray F;
  dims : list string;
  coords : list (string * list F);
}.
Arguments mkDataArray {F} data dims coords.
Arguments data {F} _.
Arguments dims {F} _.
Arguments coords {F} _.

(** [set(keys)]. *)
Definition py_set (keys : list string) : gset string := list_to_set keys.

Section xarray.
Context {F : Type} `{Float F}.

(** The size check of the constructor on one coordinate: its name is an
    axis and its length is the extent of that axis. *)
Definition check_coord (s : list nat) (dims : list string)
    (c : string * list F) : result unit :=
  match list_find (c.1 =.) dims with
  | None =>
      Raise (ValueError "coordinate has dimensions that are not a subset of the DataArray dimensions")
  | Some (i, _) =>
      if decide (s !! i = Some (length c.2)) then Ok ()
      else Raise (ValueError "conflicting sizes for dimension")
  end.

(** [xr.DataArray(d, coords=coords, dims=dims)]. *)
Definition xr_DataArray (d : ndarray F) (coords : list (string * list F))
    (dims : list string) : result (DataArray F) :=
  if decide (length dims = length (shape d)) then
    _ ← mapM (check_coord (shape d) dims) coords;
    Ok (mkDataArray d dims coords)
  else Raise (ValueError "different number of dimensions on data and dims").

(** [da.squeeze(drop=True)]: the axes of extent 1 go, with their
    coordinates. *)
Definition squeeze_drop (da : DataArray F) : DataArray F :=
  let sized := zip (dims da) (shape (data da)) in
  let gone := (filter (λ p, p.2 = 1) sized).*1 in
  mkDataArray (np_squeeze (data da))
              (filter (λ p, p.2 ≠ 1) sized).*1
              (filter (λ c, c.1 ∉ gone) (coords da)).

(** [da.transpose] applied to the names: with no name the axes are reversed; otherwise
    the names must be the array's axes, as sets. *)
Definition xr_transpose (da : DataArray F) (names : list string)
    : result (DataArray F) :=
  if decide (names = []) then
    d ← np_transpose (data da) (reverse (seq 0 (length (dims da))));
    Ok (mkDataArray d (reverse (dims da)) (coords da))
  else if decide (py_set names = py_set (dims da)) then
    axes ← mapM (tuple_index (dims da)) names;
    d ← np_transpose (data da) axes;
    Ok (mkDataArray d names (coords da))
  else Raise (ValueError "must be a permutation of the dimensions").

(** The structural invariant of a labelled array: a well-formed buffer,
    distinct axis names, and exactly one coordinate vector per axis, of
    the length of that axis. *)
Definition wf_DataArray (da : DataArray F) : Prop :=
  wf_ndarray (data da)
  ∧ NoDup (dims da)
  ∧ NoDup (coords da).*1
  ∧ Forall2 (λ k n, length <$> dict_get (coords da) k = Some n)
            (dims da) (shape (data da))
  ∧ Forall (λ c, c.1 ∈ dims da) (coords da).

#[global] Instance wf_DataArray_dec (da : DataArray F) :
  Decision (wf_DataArray da).
Proof. unfold wf_DataArray, wf_ndarray. apply _. Defined.
End xarray.

(** The part of the multi-index [idx] of an array with axes [names] that
    belongs to the axes [kept], in the order of [kept]. *)
Definition select_axes (names kept : list string) (idx : list nat)
    : list nat :=
  (λ k, default 0 (idx !! index_of k names)) <$> kept.

(** [copy.copy] and [copy.deepcopy]: values have no identity, so a copy is
    the value itself.  (Section "store" below keeps track of identities.) *)
Definition copy_copy {A} (x : A) : A := x.
Definition copy_deepcopy {A} (x : A) : A := x.

(** [{**m1, **m2}]. *)
Definition dict_merge {A} (m1 m2 : list (string * A)) : list (string * A) :=
  foldl (λ m c, dict_setitem m c.1 c.2) m1 m2.

(** ** The program: class [Interpolater] *)

(** The types of the two kernels (see the section variables below). *)
Definition interp1d_kernel_t (F : Type) : Type :=
  list F → ndarray F → nat → bool → pyvalue F →
  string + (list F → string + ndarray F).
Definition grid_kernel_t (F : Type) : Type :=
  list (list F) → ndarray F → bool → pyvalue F →
  string + (list F → string + scalar F).

Section Interpolater.
Context {F : Type} `{Float F}.

(** [scipy.interpolate.interp1d(x, y, axis, bounds_error, fill_value)]
    builds an interpolant or rejects its arguments; the interpolant maps
    the query vector to an array or rejects it. *)
Variable scipy_interp1d : interp1d_kernel_t F.

(** [scipy.interpolate.RegularGridInterpolator(points, values,
    bounds_error, fill_value)] builds an interpolant or rejects its
    arguments; the interpolant is evaluated at each query point. *)
Variable RegularGridInterpolator : grid_kernel_t F.

(** [f(pts)] for an array [pts] of [N] points: a 1-d array of [N] values. *)
Definition rgi_call (f : list F → string + scalar F) (pts : list (list F))
    : result (ndarray F) :=
  vals ← mapM (λ p, lib (f p)) pts;
  Ok (NdArray [length pts] vals).

(** The truth value of an object. *)
Definition py_bool (v : pyvalue F) : bool :=
  match v with
  | PyNone => false
  | PyBool b => b
  | PyInt z => bool_decide (z ≠ 0%Z)
  | PyFloat x => fnonzero x
  | PyStr s => bool_decide (s ≠ "")
  end.

Definition interp1d (self : DataArray F) (bounds_error : bool)
    (fill_value : pyvalue F) (extend_dims repeat : bool)
    (vectors : list (string * list F)) : result (DataArray F) :=
  (* There can and should only be one key *)
  k ← py_getitem vectors.*1 0;
  xi ← py_getitem vectors.*2 0;
  (* Determine which axis we want to interpolate on *)
  ax_idx ← tuple_index (dims self) k;
  x ← dict_getitem (coords self) k;
  let y := data self in
  extent ← py_getitem (shape (data self)) ax_idx;
  yi ←
    (if repeat && bool_decide (extent = 1) then
       Ok (np_repeat y (length xi) ax_idx)
     else
       let fill_value :=
         if negb (py_bool fill_value) then PyStr "extrapolate"
         else fill_value in
       if np_any_iscomplex y then
         f_real ← lib (scipy_interp1d x (np_real y) ax_idx bounds_error
                                      fill_value);
         f_imag ← lib (scipy_interp1d x (np_imag y) ax_idx bounds_error
                                      fill_value);
         re ← lib (f_real xi);
         im ← lib (f_imag xi);
         np_add re (np_rmul imag_unit im)
       else
         f ← lib (scipy_interp1d x y ax_idx bounds_error fill_value);
         lib (f xi));
  (* Build a new DataArray leveraging the previous coords object *)
  let new_coords := copy_deepcopy (coords self) in
  let new_coords := dict_setitem new_coords k xi in
  xr_DataArray yi new_coords (copy_deepcopy (dims self)).

Definition _interpn (da : DataArray F) (bounds_error : bool)
    (fill_value : pyvalue F) (vectors : list (string * list F))
    : result (ndarray F) :=
  (* Re-order vectors into axis order *)
  let points_original := (coords da).*2 in
  points_interp ← mapM (dict_getitem vectors) (dims da);
  let output_shape := length <$> points_interp in
  if np_any_iscomplex (data da) then
    f_real ← lib (RegularGridInterpolator points_original (np_real (data da))
                                          bounds_error fill_value);
    f_imag ← lib (RegularGridInterpolator points_original (np_imag (data da))
                                          bounds_error fill_value);
    (* np.prod(()) is the float 1.0, which np.reshape refuses as an extent *)
    if decide (points_interp = []) then
      Raise (TypeError "'numpy.float64' object cannot be interpreted as an integer")
    else
      let pts_T := grid_points points_interp in
      re ← rgi_call f_real pts_T;
      im ← rgi_call f_imag pts_T;
      interp_data ← np_add re (np_rmul imag_unit im);
      np_reshape interp_data output_shape
  else
    f ← lib (RegularGridInterpolator points_original (data da)
                                     bounds_error fill_value);
    if decide (points_interp = []) then
      Raise (TypeError "'numpy.float64' object cannot be interpreted as an integer")
    else
      let pts_T := grid_points points_interp in
      interp_data ← rgi_call f pts_T;
      np_reshape interp_data output_shape.

Definition interpn (self : DataArray F) (bounds_error : bool)
    (fill_value : pyvalue F) (extend_dims : bool)
    (vectors : list (string * list F)) : result (DataArray F) :=
  (* Remove any singular dimensions within the data. *)
  let da := squeeze_drop self in
  let keys_interp := vectors.*1 in
  let keys_data := dims da in
  if decide (keys_data = []) then
    let data := copy_copy (data da) in
    let vectors_shape := length <$> vectors.*2 in
    ext_data ← np_broadcast_to data vectors_shape;
    data_array ← xr_DataArray ext_data vectors keys_interp;
    xr_transpose data_array keys_interp
  (* Are the number of keys equal and are they the same keys? *)
  else if decide (py_set keys_interp = py_set keys_data) then
    let data := copy_deepcopy da in
    i_data ← _interpn data bounds_error fill_value vectors;
    xr_DataArray i_data vectors keys_interp
  (* Do keys_interp contain all the keys_data? *)
  else if decide (py_set keys_data ⊂ py_set keys_interp) then
    if extend_dims then
      let i_vectors := filter (λ c, c.1 ∈ keys_data) vectors in
      let i_keys := filter (λ k, k ∈ keys_data) keys_interp in
      let ext_vectors := filter (λ c, c.1 ∉ keys_data) vectors in
      let ext_keys := filter (λ k, k ∉ keys_data) keys_interp in
      let data := copy_deepcopy da in
      i_data ← _interpn data bounds_error fill_value i_vectors;
      let ext_vectors_shape := length <$> ext_vectors.*2 in
      ext_data ← np_broadcast_to i_data (ext_vectors_shape ++ shape i_data);
      data_array ← xr_DataArray ext_data (dict_merge ext_vectors i_vectors)
                                (ext_keys ++ i_keys);
      xr_transpose data_array keys_interp
    else
      (* print('uh oh') *)
      Raise NotImplementedError
  (* Do keys_data contain all the keys_interp? *)
  else if decide (py_set keys_interp ⊂ py_set keys_data) then
    if extend_dims then
      (* [dat = copy.deepcopy(da)] binds [dat]; the next line reads the
         local [data], which no branch taken so far has assigned *)
      Raise (UnboundLocalError "data")
    else Raise NotImplementedError
  else
    (* no branch assigned [data_array] *)
    Raise (UnboundLocalError "data_array").

Definition smart (self : DataArray F) (bounds_error : bool)
    (fill_value : pyvalue F) (repeat extend_dims : bool)
    (vectors : list (string * list F)) : result (DataArray F) :=
  if decide (length vectors = 1) then
    interp1d self bounds_error fill_value extend_dims true vectors
  else
    interpn self bounds_error fill_value extend_dims vectors.
End Interpolater.

(** ** Real and imaginary parts of a labelled array *)

Section complex_parts.
Context {F : Type} `{Float F}.

(** The array with the same labels over the real parts, and over the
    imaginary parts. *)
Definition real_part (self : DataArray F) : DataArray F :=
  mkDataArray (np_real (data self)) (dims self) (coords self).
Definition imag_part (self : DataArray F) : DataArray F :=
  mkDataArray (np_imag (data self)) (dims self) (coords self).

(** [a + 1j * b] on one element. *)
Definition scalar_recombine (a b : scalar F) : scalar F :=
  scalar_add a (scalar_mul imag_unit b).

(** [re + 1j * im] under the labels of [re]. *)
Definition recombine (re im : DataArray F) : result (DataArray F) :=
  d ← np_add (data re) (np_rmul imag_unit (data im));
  Ok (mkDataArray d (dims re) (coords re)).

(** Two arrays of one shape combined element by element. *)
Definition zip_complex (re im : ndarray F) : ndarray F :=
  NdArray (shape re) (zip_with scalar_recombine (buffer re) (buffer im)).

(** The documented shape of what a 1-d interpolant returns: the shape of
    the samples with the interpolation axis as long as the query. *)
Definition interp1d_kernel_shaped (kernel : interp1d_kernel_t F) : Prop :=
  ∀ x y axis be fv f xi out,
    kernel x y axis be fv = inr f → f xi = inr out →
    shape out = <[axis := length xi]> (shape y).

(** The condition of the repeat shortcut of [interp1d]: [repeat] is set and
    the array has extent 1 along the first requested axis. *)
Definition repeat_applies (self : DataArray F) (repeat : bool)
    (vectors : list (string * list F)) : bool :=
  match vectors with
  | [] => false
  | (k, _) :: _ =>
      repeat
      && bool_decide (shape (data self) !! index_of k (dims self) = Some 1)
  end.
End complex_parts.

(** ** The program over a store of mutable objects

    To speak about mutation and sharing the program is run a second time,
    over a store.  A cell of the store is a mutable Python object: the
    buffer of a numpy array, or the coordinate mapping of a labelled array.
    An array object is a window on one buffer; a copy allocates a new buffer,
    a view (squeeze, broadcast_to, reshape, transpose) keeps the buffer of
    the array it is taken from.  The program writes into no buffer (it has
    no item assignment on an array and no in-place operator), so the value
    seen through a window does not change during a call: an array object is
    its current value together with the location of its buffer.  The only
    in-place update of the program is [new_coords[k] = xi] in [interp1d].
    Tuples of axis names are immutable and are plain values. *)

Definition loc := nat.

Section store.
Context {F : Type} `{Float F}.

Inductive cell :=
  | Buffer (a : ndarray F)
  | Coords (m : list (string * list F)).

(** A computation on the store: an outcome and the store it leaves. *)
Definition M (A : Type) : Type :=
  gmap loc cell → result A * gmap loc cell.

#[global] Instance M_ret : MRet M := λ A a h, (Ok a, h).
#[global] Instance M_bind : MBind M := λ A B f m h,
  match m h with
  | (Ok a, h') => f a h'
  | (Raise e, h') => (Raise e, h')
  end.

(** A computation that does not touch the store. *)
Definition lift {A} (r : result A) : M A := λ h, (r, h).

(** A new object. *)
Definition alloc (c : cell) : M loc :=
  λ h, let l := fresh (dom h) in (Ok l, <[l := c]> h).

(** An in-place update of an object. *)
Definition store_cell (l : loc) (c : cell) : M unit :=
  λ h, (Ok (), <[l := c]> h).

Record array_obj := ArrayObj {
  base : loc;
  val : ndarray F;
}.

Record coords_obj := CoordsObj {
  cloc : loc;
  cval : list (string * list F);
}.

Record xr_obj := XrObj {
  xdata : array_obj;
  xdims : list string;
  xcoords : coords_obj;
}.

(** The labelled array an object stands for. *)
Definition value_of (o : xr_obj) : DataArray F :=
  mkDataArray (val (xdata o)) (xdims o) (cval (xcoords o)).

(** An array in a buffer of its own. *)
Definition new_array (a : ndarray F) : M array_obj :=
  l ← alloc (Buffer a); mret (ArrayObj l a).

(** A view of [o] with the value [a]: the same buffer. *)
Definition view_of (o : array_obj) (a : ndarray F) : array_obj :=
  ArrayObj (base o) a.

(** A coordinate mapping of its own. *)
Definition new_coords_obj (m : list (string * list F)) : M coords_obj :=
  l ← alloc (Coords m); mret (CoordsObj l m).

(** [c[k] = v], in place. *)
Definition coords_setitem (c : coords_obj) (k : string) (v : list F)
    : M coords_obj :=
  _ ← store_cell (cloc c) (Coords (dict_setitem (cval c) k v));
  mret (CoordsObj (cloc c) (dict_setitem (cval c) k v)).

(** [copy.copy] of an array and [copy.deepcopy] of a coordinate mapping and
    of a labelled array: new objects with the same contents. *)
Definition copy_copy_obj (a : array_obj) : M array_obj := new_array (val a).

Definition deepcopy_coords_obj (c : coords_obj) : M coords_obj :=
  new_coords_obj (cval c).

Definition deepcopy_xr_obj (o : xr_obj) : M xr_obj :=
  d ← new_array (val (xdata o));
  c ← new_coords_obj (cval (xcoords o));
  mret (XrObj d (xdims o) c).

(** The constructor keeps the array it is given and builds a coordinate
    mapping of its own from the coordinates it is given. *)
Definition xr_DataArray_obj (d : array_obj) (cs : list (string * list F))
    (ds : list string) : M xr_obj :=
  _ ← lift (xr_DataArray (val d) cs ds);
  c ← new_coords_obj cs;
  mret (XrObj d ds c).

(** [squeeze] and [transpose] return a new labelled array whose data is a
    view of the data of the old one. *)
Definition squeeze_drop_obj (o : xr_obj) : M xr_obj :=
  let v := squeeze_drop (value_of o) in
  c ← new_coords_obj (coords v);
  mret (XrObj (view_of (xdata o) (data v)) (dims v) c).

Definition xr_transpose_obj (o : xr_obj) (names : list string) : M xr_obj :=
  v ← lift (xr_transpose (value_of o) names);
  c ← new_coords_obj (coords v);
  mret (XrObj (view_of (xdata o) (data v)) (dims v) c).

Variable scipy_interp1d : interp1d_kernel_t F.
Variable RegularGridInterpolator : grid_kernel_t F.

(** An interpolant evaluated: a new array. *)
Definition call_obj (r : result (ndarray F)) : M array_obj :=
  a ← lift r; new_array a.

Definition interp1d_obj (self : xr_obj) (bounds_error : bool)
    (fill_value : pyvalue F) (extend_dims repeat : bool)
    (vectors : list (string * list F)) : M xr_obj :=
  k ← lift (py_getitem vectors.*1 0);
  xi ← lift (py_getitem vectors.*2 0);
  ax_idx ← lift (tuple_index (xdims self) k);
  x ← lift (dict_getitem (cval (xcoords self)) k);
  let y := xdata self in
  extent ← lift (py_getitem (shape (val y)) ax_idx);
  yi ←
    (if repeat && bool_decide (extent = 1) then
       new_array (np_repeat (val y) (length xi) ax_idx)
     else
       let fill_value :=
         if negb (py_bool fill_value) then PyStr "extrapolate"
         else fill_value in
       if np_any_iscomplex (val y) then
         f_real ← lift (lib (scipy_interp1d x (np_real (val y)) ax_idx
                                            bounds_error fill_value));
         f_imag ← lift (lib (scipy_interp1d x (np_imag (val y)) ax_idx
                                            bounds_error fill_value));
         re ← call_obj (lib (f_real xi));
         im ← call_obj (lib (f_imag xi));
         t ← new_array (np_rmul imag_unit (val im));
         call_obj (np_add (val re) (val t))
       else
         f ← lift (lib (scipy_interp1d x (val y) ax_idx bounds_error
                                       fill_value));
         call_obj (lib (f xi)));
  new_coords ← deepcopy_coords_obj (xcoords self);
  new_coords ← coords_setitem new_coords k xi;
  xr_DataArray_obj yi (cval new_coords) (xdims self).

Definition _interpn_obj (da : xr_obj) (bounds_error : bool)
    (fill_value : pyvalue F) (vectors : list (string * list F))
    : M array_obj :=
  let points_original := (cval (xcoords da)).*2 in
  points_interp ← lift (mapM (dict_getitem vectors) (xdims da));
  let output_shape := length <$> points_interp in
  if np_any_iscomplex (val (xdata da)) then
    f_real ← lift (lib (RegularGridInterpolator points_original
                          (np_real (val (xdata da))) bounds_error fill_value));
    f_imag ← lift (lib (RegularGridInterpolator points_original
                          (np_imag (val (xdata da))) bounds_error fill_value));
    if decide (points_interp = []) then
      lift (Raise (TypeError "'numpy.float64' object cannot be interpreted as an integer"))
    else
      let pts_T := grid_points points_interp in
      re ← call_obj (rgi_call f_real pts_T);
      im ← call_obj (rgi_call f_imag pts_T);
      t ← new_array (np_rmul imag_unit (val im));
      interp_data ← call_obj (np_add (val re) (val t));
      r ← lift (np_reshape (val interp_data) output_shape);
      mret (view_of interp_data r)
  else
    f ← lift (lib (RegularGridInterpolator points_original (val (xdata da))
                     bounds_error fill_value));
    if decide (points_interp = []) then
      lift (Raise (TypeError "'numpy.float64' object cannot be interpreted as an integer"))
    else
      let pts_T := grid_points points_interp in
      interp_data ← call_obj (rgi_call f pts_T);
      r ← lift (np_reshape (val interp_data) output_shape);
      mret (view_of interp_data r).

Definition interpn_obj (self : xr_obj) (bounds_error : bool)
    (fill_value : pyvalue F) (extend_dims : bool)
    (vectors : list (string * list F)) : M xr_obj :=
  da ← squeeze_drop_obj self;
  let keys_interp := vectors.*1 in
  let keys_data := xdims da in
  if decide (keys_data = []) then
    data ← copy_copy_obj (xdata da);
    let vectors_shape := length <$> vectors.*2 in
    ext ← lift (np_broadcast_to (val data) vectors_shape);
    data_array ← xr_DataArray_obj (view_of data ext) vectors keys_interp;
    xr_transpose_obj data_array keys_interp
  else if decide (py_set keys_interp = py_set keys_data) then
    data ← deepcopy_xr_obj da;
    i_data ← _interpn_obj data bounds_error fill_value vectors;
    xr_DataArray_obj i_data vectors keys_interp
  else if decide (py_set keys_data ⊂ py_set keys_interp) then
    if extend_dims then
      let i_vectors := filter (λ c, c.1 ∈ keys_data) vectors in
      let i_keys := filter (λ k, k ∈ keys_data) keys_interp in
      let ext_vectors := filter (λ c, c.1 ∉ keys_data) vectors in
      let ext_keys := filter (λ k, k ∉ keys_data) keys_interp in
      data ← deepcopy_xr_obj da;
      i_data ← _interpn_obj data bounds_error fill_value i_vectors;
      let ext_vectors_shape := length <$> ext_vectors.*2 in
      ext ← lift (np_broadcast_to (val i_data)
                    (ext_vectors_shape ++ shape (val i_data)));
      data_array ← xr_DataArray_obj (view_of i_data ext)
                      (dict_merge ext_vectors i_vectors) (ext_keys ++ i_keys);
      xr_transpose_obj data_array keys_interp
    else lift (Raise NotImplementedError)
  else if decide (py_set keys_interp ⊂ py_set keys_data) then
    if extend_dims then
      dat ← deepcopy_xr_obj da;
      lift (Raise (UnboundLocalError "data"))
    else lift (Raise NotImplementedError)
  else lift (Raise (UnboundLocalError "data_array")).

Definition smart_obj (self : xr_obj) (bounds_error : bool)
    (fill_value : pyvalue F) (repeat extend_dims : bool)
    (vectors : list (string * list F)) : M xr_obj :=
  if decide (length vectors = 1) then
    interp1d_obj self bounds_error fill_value extend_dims true vectors
  else
    interpn_obj self bounds_error fill_value extend_dims vectors.

(** What a call may do to the store it starts from, [h0]: it leaves every
    object of [h0] as it was, and what it returns satisfies [Q]. *)
Definition preserves {A} (h0 : gmap loc cell) (m : M A) (Q : A → Prop)
    : Prop :=
  ∀ h, h0 ⊆ h → h0 ⊆ (m h).2 ∧ ∀ a, (m h).1 = Ok a → Q a.

(** The call on the store [m] and the computation on values [r] agree:
    both raise the same exception, or both return, related by [R]. *)
Definition simulates {A B} (m : M A) (r : result B) (R : A → B → Prop)
    : Prop :=
  ∀ h, match (m h).1, r with
       | Ok a, Ok b => R a b
       | Raise e, Raise e' => e = e'
       | _, _ => False
       end.

(** The object is not one of the store [h0]. *)
Definition fresh_array (h0 : gmap loc cell) (o : array_obj) : Prop :=
  base o ∉ dom h0.
Definition fresh_coords (h0 : gmap loc cell) (c : coords_obj) : Prop :=
  cloc c ∉ dom h0.
Definition fresh_xr (h0 : gmap loc cell) (o : xr_obj) : Prop :=
  fresh_array h0 (xdata o) ∧ fresh_coords h0 (xcoords o).

(** The mutable state of a labelled array: the buffer of its data and its
    coordinate mapping.  Its dimension names are a tuple, which nothing can
    update. *)
Definition xr_cells (o : xr_obj) : gset loc :=
  {[base (xdata o); cloc (xcoords o)]}.

(** The array is one of the store. *)
Definition in_store (h : gmap loc cell) (o : xr_obj) : Prop :=
  xr_cells o ⊆ dom h.

(** The state of [o] is in [h'] what it is in [h]. *)
Definition unchanged (h h' : gmap loc cell) (o : xr_obj) : Prop :=
  ∀ l, l ∈ xr_cells o → h' !! l = h !! l.

Definition shares_nothing (o o' : xr_obj) : Prop := xr_cells o ## xr_cells o'.

(** A call started in a store that has the objects [X] only adds objects,
    and the objects [locs a] of what it returns are in the store it ends
    in. *)
Definition allocates {A} (X : gset loc) (m : M A) (locs : A → gset loc)
    : Prop :=
  ∀ h, X ⊆ dom h →
    dom h ⊆ dom (m h).2 ∧ ∀ a, (m h).1 = Ok a → locs a ⊆ dom (m h).2.

(** What the call [m] on the array [self] does in the store [h]: every
    object of [h], the buffer and the coordinates of [self] among them, is
    after the call what it was before, and the array returned is made of
    objects of the new store that were not in [h] and are none of [self]. *)
Definition leaves_input (h : gmap loc cell) (self : xr_obj) (m : M xr_obj)
    : Prop :=
  h ⊆ (m h).2
  ∧ unchanged h (m h).2 self
  ∧ ∀ out, (m h).1 = Ok out →
      in_store (m h).2 out ∧ xr_cells out ## dom h ∧ shares_nothing self out.

(** The labelled array [da] as an object with its buffer at [l1] and its
    coordinates at [l2], and a store that has this object only. *)
Definition object_at (l1 l2 : loc) (da : DataArray F) : xr_obj :=
  XrObj (ArrayObj l1 (data da)) (dims da) (CoordsObj l2 (coords da)).

Definition store_of (o : xr_obj) : gmap loc cell :=
  <[base (xdata o) := Buffer (val (xdata o))]>
    (<[cloc (xcoords o) := Coords (cval (xcoords o))]> ∅).
End store.

(** ** A reference instance of the kernels, in exact arithmetic

    Rationals stand for the floats, and both kernels are piecewise linear
    with linear extrapolation: enough to run the program on the scenarios of
    the specification. *)

Module Exact.

#[export] Instance Q_float : Float Q := {|
  fzero := 0%Q;
  fone := 1%Q;
  fadd a b := Qred (a + b);
  fsub a b := Qred (a - b);
  fmul a b := Qred (a * b);
  fnonzero a := negb (Qeq_bool a 0);
|}.

(** The line through [(x0, y0)] and [(x1, y1)] at [q]. *)
Definition segment (x0 x1 : Q) (y0 y1 : scalar Q) (q : Q) : scalar Q :=
  let t := Qred ((q - x0) / (x1 - x0)) in
  scalar_add (scalar_mul (SReal (Qred (1 - t))) y0) (scalar_mul (SReal t) y1).

(** Piecewise-linear interpolation of the samples [(xs, ys)] at [q]; beyond
    the samples the first or last segment is prolonged. *)
Fixpoint linear (xs : list Q) (ys : list (scalar Q)) (q : Q) : scalar Q :=
  match xs, ys with
  | x0 :: ((x1 :: xs'') as xs'), y0 :: ((y1 :: _) as ys') =>
      if Qle_bool q x1 || match xs'' with [] => true | _ => false end
      then segment x0 x1 y0 y1 q
      else linear xs' ys' q
  | _, y0 :: _ => y0
  | _, [] => SReal 0%Q
  end.

(** [q] lies outside the sampled interval. *)
Definition outside (xs : list Q) (q : Q) : bool :=
  match xs with
  | [] => true
  | x0 :: _ => negb (Qle_bool x0 q && Qle_bool q (List.last xs x0))
  end.

(** The value used outside the sampled interval: a numeric [fill_value], and
    extrapolation for anything else. *)
Definition fill (fill_value : pyvalue Q) (extrapolated : scalar Q) : scalar Q :=
  match fill_value with
  | PyFloat v => SReal v
  | PyInt z => SReal (inject_Z z)
  | _ => extrapolated
  end.

Definition linear_kernel (x : list Q) (y : ndarray Q) (axis : nat)
    (bounds_error : bool) (fill_value : pyvalue Q)
    : string + (list Q → string + ndarray Q) :=
  if decide (shape y !! axis = Some (length x)) then
    inr (λ xi,
      if bounds_error && existsb (outside x) xi then
        inl "A value in x_new is outside the interpolation range."
      else
        inr (tabulate (<[axis := length xi]> (shape y)) (λ idx,
          let q := default 0%Q (xi !! default 0 (idx !! axis)) in
          let line := (λ j, item y (<[axis := j]> idx)) <$> seq 0 (length x) in
          if outside x q then fill fill_value (linear x line q)
          else linear x line q)))
  else inl "x and y arrays must be equal in length along interpolation axis.".

(** Linear interpolation along each axis in turn. *)
Fixpoint multilinear (points : list (list Q)) (f : list nat → scalar Q)
    (p : list Q) : scalar Q :=
  match points, p with
  | xs :: points', q :: p' =>
      linear xs ((λ j, multilinear points' (λ idx, f (j :: idx)) p')
                   <$> seq 0 (length xs)) q
  | _, _ => f []
  end.

Definition grid_kernel (points : list (list Q)) (values : ndarray Q)
    (bounds_error : bool) (fill_value : pyvalue Q)
    : string + (list Q → string + scalar Q) :=
  if decide (length <$> points = shape values) then
    inr (λ p,
      if decide (length p = length points) then
        let out := existsb (λ c, outside c.1 c.2) (zip points p) in
        if bounds_error && out then
          inl "One of the requested xi is out of bounds"
        else if out then inr (fill fill_value (multilinear points (item values) p))
        else inr (multilinear points (item values) p)
      else inl "The requested sample points xi have the wrong dimension")
  else inl "There are not as many point arrays as values has dimensions".

End Exact.

(** ** The arrays of the scenarios of the specification *)

Module Scenario.
Import Exact.

Definition real (z : Z) : scalar Q := SReal (inject_Z z).
Definition points (zs : list Z) : list Q := inject_Z <$> zs.

(** Scenario A: axis [t] = [0,1,2], values [10,20,30]. *)
Definition array_A : DataArray Q :=
  mkDataArray (NdArray [3] (real <$> [10; 20; 30]%Z)) ["t"]
              [("t", points [0; 1; 2]%Z)].

(** Scenario B: axes [x] = [0,1] and [y] = [0,1], values [[0,1],[2,3]]. *)
Definition array_B : DataArray Q :=
  mkDataArray (NdArray [2; 2] (real <$> [0; 1; 2; 3]%Z)) ["x"; "y"]
              [("x", points [0; 1]%Z); ("y", points [0; 1]%Z)].

(** Scenario C: a single axis [x] of extent 1, value [5]. *)
Definition array_C : DataArray Q :=
  mkDataArray (NdArray [1] [real 5]) ["x"] [("x", points [0]%Z)].

(** Scenario D: axis [x] = [0,1] only. *)
Definition array_D : DataArray Q :=
  mkDataArray (NdArray [2] (real <$> [7; 9]%Z)) ["x"]
              [("x", points [0; 1]%Z)].

(** A complex array on the axis [t] = [0,1,2]: [1+2j, 3+4j, 5+8j]. *)
Definition array_Z : DataArray Q :=
  mkDataArray
    (NdArray [3] [SComplex 1 2; SComplex 3 4; SComplex 5 8]%Q) ["t"]
    [("t", points [0; 1; 2]%Z)].
End Scenario.

(** ** A reference instance of the floats with the non-finite values

    The rationals with the two infinities and NaN, under the rules of
    IEEE 754 for sums and products: an infinity times zero and the sum of
    the two infinities are NaN, and NaN absorbs.  (Signed zeros play no
    role here.)  Enough to run the paths of the program that interpolate
    nothing on data that is not finite. *)

Module Extended.

Inductive xreal := Finite (q : Q) | PosInf | NegInf | NaN.

Definition xopp (a : xreal) : xreal :=
  match a with
  | Finite q => Finite (Qred (- q))
  | PosInf => NegInf
  | NegInf => PosInf
  | NaN => NaN
  end.

Definition xadd (a b : xreal) : xreal :=
  match a, b with
  | NaN, _ | _, NaN => NaN
  | Finite p, Finite q => Finite (Qred (p + q))
  | PosInf, NegInf | NegInf, PosInf => NaN
  | PosInf, _ | _, PosInf => PosInf
  | NegInf, _ | _, NegInf => NegInf
  end.

(** An infinity times the finite [q]. *)
Definition xscale (inf : xreal) (q : Q) : xreal :=
  match (q ?= 0)%Q with
  | Eq => NaN
  | Gt => inf
  | Lt => xopp inf
  end.

Definition xmul (a b : xreal) : xreal :=
  match a, b with
  | NaN, _ | _, NaN => NaN
  | Finite p, Finite q => Finite (Qred (p * q))
  | Finite p, inf | inf, Finite p => xscale inf p
  | PosInf, PosInf | NegInf, NegInf => PosInf
  | PosInf, NegInf | NegInf, PosInf => NegInf
  end.

#[export] Instance xreal_float : Float xreal := {|
  fzero := Finite 0;
  fone := Finite 1;
  fadd := xadd;
  fsub a b := xadd a (xopp b);
  fmul := xmul;
  fnonzero a :=
    match a with
    | Finite q => negb (Qeq_bool q 0)
    | _ => true
    end;
|}.

(** Kernels that reject every call: a call that returns with them has
    invoked no kernel. *)
Definition no_interp1d : interp1d_kernel_t xreal :=
  λ _ _ _ _ _, inl "no interpolant".
Definition no_grid : grid_kernel_t xreal := λ _ _ _ _, inl "no interpolant".

(** An array with the single axis [x] of extent 1 and the value
    [1 + inf j]. *)
Definition array_W : DataArray xreal :=
  mkDataArray (NdArray [1] [SComplex (Finite 1) PosInf]) ["x"]
              [("x", [Finite 0])].
End Extended.

(** * Properties *)

(** ** Facts about row-major indexing *)

Lemma lookup_bind_blocks {A B} (f : A → list B) (m : nat) (l : list A) i j :
  (∀ x, x ∈ l → length (f x) = m) → j < m →
  (l ≫= f) !! (i * m + j) = l !! i ≫= λ x, f x !! j.
Proof.
  revert i. induction l as [|x l IH]; intros i Hlen Hj.
  - by rewrite !lookup_nil.
  - rewrite bind_cons. destruct i as [|i]; simpl.
    + rewrite lookup_app_l; [done|]. rewrite Hlen; [lia|]. by left.
    + rewrite lookup_app_r; rewrite Hlen; try (by left); try lia.
      replace (m + i * m + j - m) with (i * m + j) by lia.
      apply IH; [|done]. intros y Hy. apply Hlen. by right.
Qed.

Lemma length_bind_blocks {A B} (f : A → list B) (m : nat) (l : list A) :
  (∀ x, x ∈ l → length (f x) = m) → length (l ≫= f) = length l * m.
Proof.
  induction l as [|x l IH]; intros Hlen; [done|].
  rewrite bind_cons, length_app, Hlen, IH; [simpl; lia| |by left].
  intros y Hy. apply Hlen. by right.
Qed.

Lemma length_indices s : length (indices s) = np_prod s.
Proof.
  induction s as [|n s IH]; simpl; [done|].
  rewrite (length_bind_blocks _ (np_prod s)).
  - by rewrite length_seq.
  - intros i _. by rewrite length_fmap.
Qed.

Lemma lookup_indices s idx :
  in_bounds s idx → indices s !! ravel s idx = Some idx.
Proof.
  intros Hb. induction Hb as [|i n idx s Hi Hb IH]; simpl; [done|].
  assert (Hr : ravel s idx < np_prod s).
  { apply lookup_lt_Some in IH. by rewrite length_indices in IH. }
  rewrite (lookup_bind_blocks _ (np_prod s)); [| |done].
  - rewrite lookup_seq_lt by done. simpl.
    by rewrite list_lookup_fmap, IH.
  - intros x _. by rewrite length_fmap, length_indices.
Qed.

Lemma ravel_lt s idx : in_bounds s idx → ravel s idx < np_prod s.
Proof.
  intros Hb. apply lookup_indices, lookup_lt_Some in Hb.
  by rewrite length_indices in Hb.
Qed.

Lemma indices_in_bounds s idx : idx ∈ indices s → in_bounds s idx.
Proof.
  revert idx. induction s as [|n s IH]; intros idx; simpl.
  - intros ->%list_elem_of_singleton. constructor.
  - intros (i & Hidx & Hi)%list_elem_of_bind.
    apply list_elem_of_fmap in Hidx as (idx' & -> & Hidx').
    apply elem_of_seq in Hi. constructor; [lia|]. by apply IH.
Qed.

Lemma in_bounds_indices s idx : in_bounds s idx → idx ∈ indices s.
Proof. intros Hb. eapply list_elem_of_lookup_2, lookup_indices, Hb. Qed.

Lemma in_bounds_length s idx : in_bounds s idx → length idx = length s.
Proof. apply Forall2_length. Qed.

Section array_facts.
Context {F : Type} `{Float F}.

Lemma shape_tabulate s (f : list nat → scalar F) : shape (tabulate s f) = s.
Proof. done. Qed.

Lemma wf_tabulate s (f : list nat → scalar F) : wf_ndarray (tabulate s f).
Proof. unfold wf_ndarray. simpl. by rewrite length_fmap, length_indices. Qed.

Lemma item_tabulate s (f : list nat → scalar F) idx :
  in_bounds s idx → item (tabulate s f) idx = f idx.
Proof.
  intros Hb. unfold item. simpl.
  by rewrite list_lookup_fmap, lookup_indices.
Qed.

Lemma tabulate_ext s (f g : list nat → scalar F) :
  (∀ idx, in_bounds s idx → f idx = g idx) → tabulate s f = tabulate s g.
Proof.
  intros Hfg. unfold tabulate. f_equal.
  apply list_fmap_ext. intros i idx Hidx.
  apply Hfg, indices_in_bounds. by eapply list_elem_of_lookup_2.
Qed.

(** A well-formed array is the table of its items. *)
Lemma tabulate_item (a : ndarray F) :
  wf_ndarray a → tabulate (shape a) (item a) = a.
Proof.
  destruct a as [s buf]. unfold wf_ndarray, tabulate. simpl. intros Hwf.
  f_equal. apply list_eq. intros j. rewrite list_lookup_fmap.
  destruct (decide (j < np_prod s)) as [Hj|Hj].
  - destruct (lookup_lt_is_Some_2 (indices s) j) as [idx Hidx].
    { by rewrite length_indices. }
    rewrite Hidx. simpl. unfold item. simpl.
    assert (Hb : in_bounds s idx).
    { apply indices_in_bounds. by eapply list_elem_of_lookup_2. }
    assert (ravel s idx = j) as ->.
    { pose proof (lookup_indices s idx Hb) as Hr.
      eapply NoDup_lookup; [|exact Hr|exact Hidx].
      clear. induction s as [|n s IH]; simpl.
      - apply NoDup_singleton.
      - apply NoDup_bind.
        + intros i j idx _ _ (?&->&_)%list_elem_of_fmap (?&[= ->]&_)%list_elem_of_fmap.
          done.
        + intros i _. by apply (NoDup_fmap_2 _).
        + apply NoDup_seq. }
    destruct (lookup_lt_is_Some_2 buf j) as [z Hz]; [lia|].
    by rewrite Hz.
  - rewrite !lookup_ge_None_2; [done|lia|rewrite length_indices; lia].
Qed.
End array_facts.

(** ** Python sequences, mappings and the constructor's check *)

Section python_facts.
Context {A : Type}.

Lemma list_find_NoDup `{EqDecision A} (t : list A) i k :
  NoDup t → t !! i = Some k → list_find (k =.) t = Some (i, k).
Proof.
  intros Hnd Hi. apply list_find_Some. split_and!; [done..|].
  intros j y Hj Hlt ->. pose proof (NoDup_lookup _ _ _ _ Hnd Hi Hj). lia.
Qed.

Lemma tuple_index_Ok `{EqDecision A} (t : list A) i k :
  NoDup t → t !! i = Some k → tuple_index t k = Ok i.
Proof. intros ??. unfold tuple_index. by erewrite list_find_NoDup. Qed.

Lemma tuple_index_Raise `{EqDecision A} (t : list A) k :
  k ∉ t → tuple_index t k = Raise (ValueError "tuple.index(x): x not in tuple").
Proof.
  intros Hk. unfold tuple_index.
  destruct (list_find (k =.) t) as [[i y]|] eqn:Hf; [|done].
  apply list_find_Some in Hf as (Hi & <- & _).
  destruct Hk. by eapply list_elem_of_lookup_2.
Qed.


Lemma dict_get_NoDup (m : list (string * A)) k v :
  NoDup m.*1 → (k, v) ∈ m → dict_get m k = Some v.
Proof.
  induction m as [|[k' v'] m IH]; simpl; [by intros _ ?%elem_of_nil|].
  intros [Hk' Hnd]%list.NoDup_cons [[= -> ->]|Hin]%elem_of_cons.
  - by rewrite decide_True.
  - rewrite decide_False; [by apply IH|].
    intros ->. apply Hk'. apply list_elem_of_fmap. by exists (k', v).
Qed.


Lemma elem_of_dict_setitem (m : list (string * A)) k v k' v' :
  NoDup m.*1 → (k', v') ∈ dict_setitem m k v →
  (k' = k ∧ v' = v) ∨ (k' ≠ k ∧ (k', v') ∈ m).
Proof.
  induction m as [|[k0 v0] m IH]; simpl.
  - intros _ [= -> ->]%list_elem_of_singleton. by left.
  - intros [Hk0 Hnd]%list.NoDup_cons. case_decide as Hk; subst.
    + intros [[= -> ->]|Hin]%elem_of_cons; [by left|].
      right. split; [|by right]. intros ->. apply Hk0.
      apply list_elem_of_fmap. by exists (k0, v').
    + intros [[= -> ->]|Hin]%elem_of_cons.
      * right. split; [done|by left].
      * destruct (IH Hnd Hin) as [?|[? ?]]; [by left|].
        right. split; [done|by right].
Qed.
End python_facts.

Section constructor_facts.
Context {F : Type} `{Float F}.

Lemma check_coord_Ok (s : list nat) (dims : list string) k (v : list F) i :
  NoDup dims → dims !! i = Some k → s !! i = Some (length v) →
  check_coord s dims (k, v) = Ok ().
Proof.
  intros Hnd Hi Hs. unfold check_coord. simpl.
  rewrite (list_find_NoDup dims i k) by done. by rewrite decide_True.
Qed.

Lemma mapM_check_Ok (s : list nat) (dims : list string)
    (cs : list (string * list F)) :
  Forall (λ c, check_coord s dims c = Ok ()) cs →
  mapM (check_coord s dims) cs = Ok (replicate (length cs) ()).
Proof.
  induction 1 as [|c cs Hc _ IH]; simpl; [done|]. by rewrite Hc, IH.
Qed.

Lemma xr_DataArray_Ok (d : ndarray F) cs (ds : list string) :
  length ds = length (shape d) →
  Forall (λ c, check_coord (shape d) ds c = Ok ()) cs →
  xr_DataArray d cs ds = Ok (mkDataArray d ds cs).
Proof.
  intros Hlen Hcs. unfold xr_DataArray.
  rewrite decide_True by done. by rewrite mapM_check_Ok.
Qed.

(** What the constructor returns is what it was given. *)
Lemma xr_DataArray_inv (d : ndarray F) cs (ds : list string) out :
  xr_DataArray d cs ds = Ok out → out = mkDataArray d ds cs.
Proof.
  unfold xr_DataArray. case_decide; [|done].
  destruct (mapM _ _); simpl; [|done]. by intros [= <-].
Qed.

Lemma wf_DataArray_length (da : DataArray F) :
  wf_DataArray da → length (dims da) = length (shape (data da)).
Proof. intros (_ & _ & _ & Hf & _). by eapply Forall2_length. Qed.

Lemma wf_DataArray_coord (da : DataArray F) i k :
  wf_DataArray da → dims da !! i = Some k →
  ∃ v, dict_get (coords da) k = Some v
       ∧ shape (data da) !! i = Some (length v).
Proof.
  intros (_ & _ & _ & Hf & _) Hi.
  destruct (Forall2_lookup_l _ _ _ _ _ Hf Hi) as (n & Hn & Hk).
  destruct (dict_get (coords da) k) as [v|]; [|done].
  injection Hk as <-. eauto.
Qed.
End constructor_facts.

(** ** [np.repeat] along an axis of extent 1 *)

Section repeat_facts.
Context {F : Type} `{Float F}.

Lemma alter_insert_lookup {A} (f : A → A) (l : list A) i x :
  l !! i = Some x → alter f i l = <[i := f x]> l.
Proof.
  intros Hi. apply list_eq. intros j.
  destruct (decide (j = i)) as [->|Hne].
  - rewrite list_lookup_alter_eq, Hi, list_lookup_insert_eq; [done|].
    by eapply lookup_lt_Some.
  - by rewrite list_lookup_alter_ne, list_lookup_insert_ne.
Qed.

Lemma shape_np_repeat_singleton (a : ndarray F) n ax :
  shape a !! ax = Some 1 →
  shape (np_repeat a n ax) = <[ax := n]> (shape a).
Proof.
  intros Hax. unfold np_repeat. simpl.
  rewrite (alter_insert_lookup _ _ _ 1) by done. f_equal. lia.
Qed.

Lemma item_np_repeat_singleton (a : ndarray F) n ax idx :
  shape a !! ax = Some 1 →
  in_bounds (<[ax := n]> (shape a)) idx →
  item (np_repeat a n ax) idx = item a (<[ax := 0]> idx).
Proof.
  intros Hax Hb. unfold np_repeat.
  rewrite (alter_insert_lookup _ (shape a) _ 1) by done.
  replace (1 * n) with n by lia. rewrite item_tabulate by done.
  assert (Hlt : ax < length (shape a)) by by eapply lookup_lt_Some.
  destruct (lookup_lt_is_Some_2 idx ax) as [j Hj].
  { rewrite (in_bounds_length _ _ Hb), length_insert. done. }
  rewrite (alter_insert_lookup _ idx _ j) by done.
  assert (j < n).
  { eapply (Forall2_lookup_lr _ _ _ ax) in Hb; [exact Hb|done|].
    by rewrite list_lookup_insert_eq. }
  by rewrite Nat.div_small.
Qed.
End repeat_facts.

(** ** The 1-d path *)

Section interp1d_properties.
Context {F : Type} `{Float F}.
Implicit Types (scipy_interp1d : interp1d_kernel_t F)
  (RegularGridInterpolator : grid_kernel_t F) (self : DataArray F)
  (fv : pyvalue F) (vectors : list (string * list F)) (xi : list F).

(** The repeat shortcut, as an equation: on an axis of extent 1 with
    [repeat=True] the result is the replicated buffer under the old axis
    names, with the coordinate of the axis replaced by the request. *)
Lemma interp1d_repeat_eq scipy_interp1d self be fv ext k xi ax :
  wf_DataArray self →
  dims self !! ax = Some k →
  shape (data self) !! ax = Some 1 →
  interp1d scipy_interp1d self be fv ext true [(k, xi)]
  = Ok (mkDataArray (np_repeat (data self) (length xi) ax) (dims self)
                    (dict_setitem (coords self) k xi)).
Proof.
  intros Hwf Hk Hax.
  destruct (wf_DataArray_coord self ax k Hwf Hk) as (x & Hx & _).
  pose proof Hwf as (_ & Hnd & Hndc & Hf & Hcd).
  unfold interp1d. simpl.
  rewrite (tuple_index_Ok _ ax) by done. simpl.
  unfold dict_getitem. rewrite Hx. simpl.
  unfold py_getitem. rewrite Hax. simpl.
  unfold copy_deepcopy. apply xr_DataArray_Ok.
  - rewrite shape_np_repeat_singleton, length_insert by done.
    by apply wf_DataArray_length.
  - rewrite shape_np_repeat_singleton by done.
    apply Forall_forall. intros [k' v'] Hin.
    apply elem_of_dict_setitem in Hin as [[-> ->]|[Hne Hin]]; [| |done].
    + apply (check_coord_Ok _ _ _ _ ax); [done..|].
      rewrite list_lookup_insert_eq; [done|]. by eapply lookup_lt_Some.
    + rewrite Forall_forall in Hcd. pose proof (Hcd _ Hin) as Hd. simpl in Hd.
      apply list_elem_of_lookup in Hd as [i Hi].
      destruct (wf_DataArray_coord self i k' Hwf Hi) as (v & Hv & Hs).
      rewrite (dict_get_NoDup _ _ _ Hndc Hin) in Hv. injection Hv as <-.
      apply (check_coord_Ok _ _ _ _ i); [done..|].
      rewrite list_lookup_insert_ne; [done|].
      intros ->. rewrite Hk in Hi. by injection Hi.
Qed.

(** C3. In the 1-d path, on an axis of extent 1 with [repeat=True], the
    result does not depend on the interpolation kernel (none is invoked): it
    has the old axis names, the requested number of samples on the named
    axis, and every slice along that axis is the original single slice. *)
Theorem interp1d_repeat_replicates self be fv ext k xi ax :
  wf_DataArray self →
  dims self !! ax = Some k →
  shape (data self) !! ax = Some 1 →
  ∃ out,
    (∀ scipy_interp1d,
       interp1d scipy_interp1d self be fv ext true [(k, xi)] = Ok out)
    ∧ dims out = dims self
    ∧ shape (data out) = <[ax := length xi]> (shape (data self))
    ∧ ∀ idx, in_bounds (shape (data out)) idx →
        item (data out) idx = item (data self) (<[ax := 0]> idx).
Proof.
  intros Hwf Hk Hax. eexists. split.
  { intros kernel. by apply (interp1d_repeat_eq _ _ _ _ _ _ _ ax). }
  cbn [data dims coords]. split; [done|]. split.
  - by apply shape_np_repeat_singleton.
  - intros idx Hb. rewrite shape_np_repeat_singleton in Hb by done.
    by apply item_np_repeat_singleton.
Qed.

(** C5. In the 1-d path a requested axis that is not one of the array's
    dimensions makes [dims.index] fail: [interp1d] raises its [ValueError]
    (the specification's AxisNotFoundError). *)
Theorem interp1d_axis_not_found scipy_interp1d self be fv ext rep k xi :
  k ∉ dims self →
  interp1d scipy_interp1d self be fv ext rep [(k, xi)]
  = Raise (ValueError "tuple.index(x): x not in tuple").
Proof.
  intros Hk. unfold interp1d. simpl. by rewrite tuple_index_Raise.
Qed.

(** C10. In [interp1d] every falsy [fill_value] (None, False, 0, 0.0, the
    empty string) is replaced by "extrapolate": the call is the call with
    [fill_value="extrapolate"], whatever the kernel does with a fill value. *)
Theorem interp1d_falsy_fill_value scipy_interp1d self be fv ext rep vectors :
  py_bool fv = false →
  interp1d scipy_interp1d self be fv ext rep vectors
  = interp1d scipy_interp1d self be (PyStr "extrapolate") ext rep vectors.
Proof. intros Hfv. unfold interp1d. by rewrite Hfv. Qed.

(** C9. With exactly one requested axis [smart] calls [interp1d] with
    [repeat=True] whatever [repeat] the caller gave; so on an axis of extent 1
    it replicates the single slice even for [repeat=False]. *)
Theorem smart_one_axis_repeat scipy_interp1d RegularGridInterpolator
    self be fv rep ext vectors :
  length vectors = 1 →
  smart scipy_interp1d RegularGridInterpolator self be fv rep ext vectors
  = interp1d scipy_interp1d self be fv ext true vectors
  ∧ ∀ k xi ax,
      vectors = [(k, xi)] →
      wf_DataArray self →
      dims self !! ax = Some k →
      shape (data self) !! ax = Some 1 →
      smart scipy_interp1d RegularGridInterpolator self be fv rep ext vectors
      = Ok (mkDataArray (np_repeat (data self) (length xi) ax) (dims self)
                        (dict_setitem (coords self) k xi)).
Proof.
  intros Hlen. unfold smart. rewrite decide_True by done. split; [done|].
  intros k xi ax -> Hwf Hk Hax. by apply interp1d_repeat_eq.
Qed.
End interp1d_properties.

(** ** The scenarios, run on the reference kernels *)

(** A decidable proposition about concrete data, settled by evaluation. *)
Ltac by_evaluation := apply (bool_decide_unpack _); vm_compute; exact I.

Section scenarios.
Import Exact Scenario.

(** Scenario A. *)
Example scenario_A :
  interp1d linear_kernel array_A false PyNone true true
           [("t", [0; 1 # 2; 1; 3 # 2; 2]%Q)]
  = Ok (mkDataArray (NdArray [5] (real <$> [10; 15; 20; 25; 30]%Z)) ["t"]
                    [("t", [0; 1 # 2; 1; 3 # 2; 2]%Q)]).
Proof. vm_compute. reflexivity. Qed.

(** Scenario B. *)
Example scenario_B :
  interpn grid_kernel array_B false PyNone true
          [("x", [0; 1 # 2; 1]%Q); ("y", points [0; 1]%Z)]
  = Ok (mkDataArray (NdArray [3; 2] (real <$> [0; 1; 1; 2; 2; 3]%Z))
                    ["x"; "y"]
                    [("x", [0; 1 # 2; 1]%Q); ("y", points [0; 1]%Z)]).
Proof. vm_compute. reflexivity. Qed.

(** Scenario C. *)
Example scenario_C :
  interp1d linear_kernel array_C false PyNone true true
           [("x", points [0; 1; 2; 3]%Z)]
  = Ok (mkDataArray (NdArray [4] (real <$> [5; 5; 5; 5]%Z)) ["x"]
                    [("x", points [0; 1; 2; 3]%Z)]).
Proof. vm_compute. reflexivity. Qed.

Lemma interp1d_repeat_replicates_witness :
  wf_DataArray array_C
  ∧ ∃ out,
      (∀ scipy_interp1d,
         interp1d scipy_interp1d array_C false PyNone true true
                  [("x", points [0; 1; 2; 3]%Z)] = Ok out)
      ∧ dims out = dims array_C
      ∧ shape (data out) = <[0 := 4]> (shape (data array_C))
      ∧ ∀ idx, in_bounds (shape (data out)) idx →
          item (data out) idx = item (data array_C) (<[0 := 0]> idx).
Proof.
  assert (Hwf : wf_DataArray array_C).
  { by_evaluation. }
  split; [exact Hwf|].
  exact (interp1d_repeat_replicates array_C false PyNone true "x"
           (points [0; 1; 2; 3]%Z) 0 Hwf eq_refl eq_refl).
Defined.

Lemma interp1d_axis_not_found_witness :
  ("y" ∉ dims array_A)
  ∧ interp1d linear_kernel array_A false PyNone true true
             [("y", points [0; 1]%Z)]
    = Raise (ValueError "tuple.index(x): x not in tuple").
Proof.
  assert (Hy : "y" ∉ dims array_A).
  { by_evaluation. }
  split; [exact Hy|].
  exact (interp1d_axis_not_found linear_kernel array_A false PyNone true true
           "y" (points [0; 1]%Z) Hy).
Defined.

Lemma interp1d_falsy_fill_value_witness :
  py_bool (PyInt 0 : pyvalue Q) = false
  ∧ interp1d linear_kernel array_A false (PyInt 0) true true
             [("t", points [3]%Z)]
    = interp1d linear_kernel array_A false (PyStr "extrapolate") true true
               [("t", points [3]%Z)].
Proof.
  split; [reflexivity|].
  exact (interp1d_falsy_fill_value linear_kernel array_A false (PyInt 0) true
           true [("t", points [3]%Z)] eq_refl).
Defined.

(** A fill value of 0 is not used beyond the samples: the value at [t = 3]
    is the extrapolated 40.  The same call with the fill value 1 gives 1. *)
Example fill_value_zero_extrapolates :
  data <$> interp1d linear_kernel array_A false (PyInt 0) true true
                    [("t", points [3]%Z)]
  = Ok (NdArray [1] [real 40])
  ∧ data <$> interp1d linear_kernel array_A false (PyInt 1) true true
                      [("t", points [3]%Z)]
    = Ok (NdArray [1] [real 1]).
Proof. split; vm_compute; reflexivity. Qed.

Lemma smart_one_axis_repeat_witness :
  length [("x", points [0; 1; 2; 3]%Z)] = 1
  ∧ smart linear_kernel grid_kernel array_C false PyNone false true
          [("x", points [0; 1; 2; 3]%Z)]
    = interp1d linear_kernel array_C false PyNone true true
               [("x", points [0; 1; 2; 3]%Z)].
Proof.
  split; [reflexivity|].
  exact (proj1 (smart_one_axis_repeat linear_kernel grid_kernel array_C false
                  PyNone false true [("x", points [0; 1; 2; 3]%Z)] eq_refl)).
Defined.

(** [smart] with [repeat=False] on scenario C still replicates. *)
Example smart_repeat_false_scenario_C :
  smart linear_kernel grid_kernel array_C false PyNone false true
        [("x", points [0; 1; 2; 3]%Z)]
  = Ok (mkDataArray (NdArray [4] (real <$> [5; 5; 5; 5]%Z)) ["x"]
                    [("x", points [0; 1; 2; 3]%Z)]).
Proof. vm_compute. reflexivity. Qed.
End scenarios.

(** ** [squeeze(drop=True)] *)

Section squeeze_facts.
Context {F : Type} `{Float F}.
Implicit Types (self da : DataArray F).

Lemma np_prod_filter_ne_1 (s : list nat) :
  np_prod (filter (λ n, n ≠ 1) s) = np_prod s.
Proof.
  induction s as [|n s IH]; [done|]. rewrite filter_cons.
  case_decide as Hn; simpl; rewrite IH; [done|].
  destruct (decide (n = 1)) as [->|?]; [lia|done].
Qed.

Lemma filter_zip_snd {A} (ks : list A) (ns : list nat) :
  length ks = length ns →
  (filter (λ p : A * nat, p.2 ≠ 1) (zip ks ns)).*2 = filter (λ n, n ≠ 1) ns.
Proof.
  revert ns. induction ks as [|k ks IH]; intros [|n ns] Hlen;
    simplify_eq/=; [done|].
  rewrite !filter_cons. simpl. case_decide; simpl; by rewrite IH.
Qed.

Lemma elem_of_zip_lookup {A B} (ks : list A) (ns : list B) k n :
  (k, n) ∈ zip ks ns ↔ ∃ i, ks !! i = Some k ∧ ns !! i = Some n.
Proof.
  rewrite list_elem_of_lookup. split.
  - intros (i & Hi). exists i.
    apply lookup_zip_with_Some in Hi as (x & y & [= -> ->] & ? & ?). done.
  - intros (i & Hk & Hn). exists i.
    apply lookup_zip_with_Some. by exists k, n.
Qed.

Lemma dict_get_filter {A} (P : string * A → Prop) `{∀ c, Decision (P c)}
    (m : list (string * A)) k :
  (∀ v, P (k, v)) → dict_get (filter P m) k = dict_get m k.
Proof.
  intros HP. induction m as [|[k' v'] m IH]; [done|].
  rewrite filter_cons. simpl. case_decide as Hc; simpl.
  - by rewrite IH.
  - rewrite decide_False; [done|]. intros ->. by apply Hc.
Qed.

Lemma squeeze_drop_shape self :
  wf_DataArray self →
  shape (data (squeeze_drop self))
  = (filter (λ p, p.2 ≠ 1) (zip (dims self) (shape (data self)))).*2.
Proof.
  intros Hwf. simpl. symmetry. apply filter_zip_snd.
  by apply wf_DataArray_length.
Qed.

Lemma wf_squeeze_drop self : wf_DataArray self → wf_DataArray (squeeze_drop self).
Proof.
  intros Hwf. pose proof (wf_DataArray_length _ Hwf) as Hlen.
  pose proof Hwf as (Hbuf & Hnd & Hndc & Hf & Hcd).
  set (sized := zip (dims self) (shape (data self))).
  assert (Hkey : ∀ k n m, (k, n) ∈ sized → (k, m) ∈ sized → n = m).
  { intros k n m (i & Hi & Hn)%elem_of_zip_lookup (j & Hj & Hm)%elem_of_zip_lookup.
    pose proof (NoDup_lookup _ _ _ _ Hnd Hi Hj) as ->. congruence. }
  split_and!.
  - unfold wf_ndarray. simpl. by rewrite np_prod_filter_ne_1.
  - simpl. eapply sublist_NoDup; [exact Hnd|].
    rewrite <-(fst_zip (dims self) (shape (data self))) at 2 by lia.
    apply fmap_sublist, sublist_filter.
  - simpl. eapply sublist_NoDup; [exact Hndc|].
    apply fmap_sublist, sublist_filter.
  - rewrite squeeze_drop_shape by done. simpl. fold sized.
    apply Forall2_fmap, Forall_Forall2_diag, Forall_forall.
    intros [k n] [Hn Hin]%list_elem_of_filter. simpl in *.
    rewrite dict_get_filter.
    + apply elem_of_zip_lookup in Hin as (i & Hi & Hs).
      destruct (wf_DataArray_coord self i k Hwf Hi) as (v & -> & Hv).
      simpl. congruence.
    + intros v. simpl.
      intros ([k' m] & -> & [Hm Hin']%list_elem_of_filter)%list_elem_of_fmap.
      simpl in *. subst m. by rewrite (Hkey _ _ _ Hin Hin') in Hn.
  - simpl. fold sized. apply Forall_forall.
    intros [k v] [Hgone Hin]%list_elem_of_filter. simpl in *.
    rewrite Forall_forall in Hcd. pose proof (Hcd _ Hin) as Hk. simpl in Hk.
    apply list_elem_of_lookup in Hk as [i Hi].
    destruct (lookup_lt_is_Some_2 (shape (data self)) i) as [n Hn].
    { rewrite <-Hlen. by eapply lookup_lt_Some. }
    assert (Hkn : (k, n) ∈ sized) by (apply elem_of_zip_lookup; eauto).
    apply list_elem_of_fmap. exists (k, n). split; [done|].
    apply list_elem_of_filter. split; [|done]. simpl. intros ->.
    apply Hgone, list_elem_of_fmap. exists (k, 1). split; [done|].
    by apply list_elem_of_filter.
Qed.

(** An array squeezed to no axis at all holds a single element. *)
Lemma squeeze_drop_scalar self :
  wf_DataArray self → dims (squeeze_drop self) = [] →
  ∃ z, data (squeeze_drop self) = NdArray [] [z] ∧ buffer (data self) = [z].
Proof.
  intros Hwf Hd. pose proof (wf_squeeze_drop _ Hwf) as Hwf'.
  pose proof (wf_DataArray_length _ Hwf') as Hlen. rewrite Hd in Hlen.
  destruct Hwf' as (Hbuf & _). unfold wf_ndarray in Hbuf.
  destruct (data (squeeze_drop self)) as [s buf] eqn:Hsq. simpl in *.
  destruct s; [|done]. simpl in Hbuf.
  destruct buf as [|z [|??]]; simplify_eq/=. exists z. split; [done|].
  unfold np_squeeze in Hsq. by injection Hsq.
Qed.
End squeeze_facts.

(** ** Positions, key sets and [mapM] *)

Section index_facts.
Context {A : Type} `{EqDecision A}.

Lemma index_of_lookup (t : list A) i k :
  NoDup t → t !! i = Some k → index_of k t = i.
Proof. intros ??. unfold index_of. by erewrite list_find_NoDup. Qed.

Lemma lookup_index_of (t : list A) k : k ∈ t → t !! index_of k t = Some k.
Proof.
  intros Hk. unfold index_of.
  destruct (list_find (k =.) t) as [[i y]|] eqn:Hf.
  - apply list_find_Some in Hf as (Hi & <- & _). done.
  - apply list_find_None in Hf. rewrite Forall_forall in Hf.
    by destruct (Hf k Hk).
Qed.

Lemma index_of_lt (t : list A) k : k ∈ t → index_of k t < length t.
Proof. intros Hk. eapply lookup_lt_Some, lookup_index_of, Hk. Qed.

Lemma tuple_index_index_of (t : list A) k :
  k ∈ t → tuple_index t k = Ok (index_of k t).
Proof.
  intros Hk. unfold tuple_index, index_of.
  destruct (list_find (k =.) t) as [[i y]|] eqn:Hf; [done|].
  apply list_find_None in Hf. rewrite Forall_forall in Hf.
  by destruct (Hf k Hk).
Qed.

Lemma index_of_inj (t : list A) k k' :
  k ∈ t → k' ∈ t → index_of k t = index_of k' t → k = k'.
Proof.
  intros Hk Hk' Heq. apply lookup_index_of in Hk, Hk'.
  rewrite Heq in Hk. congruence.
Qed.
End index_facts.

Lemma bind_Ok_inv {A B} (m : result A) (f : A → result B) b :
  m ≫= f = Ok b → ∃ a, m = Ok a ∧ f a = Ok b.
Proof. destruct m as [a|e]; [|done]. intros Hf. by exists a. Qed.

Lemma mapM_Ok_fmap {A B} (f : A → result B) (g : A → B) (l : list A) :
  (∀ x, x ∈ l → f x = Ok (g x)) → mapM f l = Ok (g <$> l).
Proof.
  induction l as [|x l IH]; intros Hf; simpl; [done|].
  rewrite Hf by by left. simpl. rewrite IH; [done|].
  intros y Hy. apply Hf. by right.
Qed.

Lemma py_set_elem_of (l k : list string) :
  py_set l = py_set k → ∀ x, x ∈ l ↔ x ∈ k.
Proof.
  unfold py_set. intros Heq x.
  by rewrite <-(elem_of_list_to_set (C := gset string) x l), Heq,
    elem_of_list_to_set.
Qed.

Lemma py_set_length (l k : list string) :
  NoDup l → NoDup k → py_set l = py_set k → length l = length k.
Proof.
  intros Hl Hk Heq. apply Permutation_length, NoDup_Permutation; [done..|].
  by apply py_set_elem_of.
Qed.

(** ** Broadcasting and transposing *)

Section layout_facts.
Context {F : Type} `{Float F}.

Lemma broadcast_rev_prefix (r e : list nat) :
  broadcast_rev r (r ++ e) = Some (r ++ e).
Proof.
  induction r as [|m r IH]; simpl; [by destruct e|].
  rewrite IH. simpl. by rewrite decide_True.
Qed.

Lemma broadcast_index_suffix (s ext idx : list nat) :
  in_bounds (ext ++ s) idx →
  broadcast_index s idx = drop (length ext) idx
  ∧ in_bounds s (drop (length ext) idx).
Proof.
  intros Hb. pose proof (in_bounds_length _ _ Hb) as Hlen.
  rewrite length_app in Hlen.
  assert (Hs : in_bounds s (drop (length ext) idx)).
  { pose proof (Forall2_drop _ _ _ (length ext) Hb) as Hd.
    by rewrite drop_app_length in Hd. }
  split; [|done]. unfold broadcast_index.
  replace (length idx - length s) with (length ext) by lia.
  clear Hb Hlen. induction Hs as [|i n idx' s' Hi Hs IH]; simpl; [done|].
  rewrite IH. case_decide; [f_equal; lia|done].
Qed.

Lemma np_broadcast_to_prefix (a : ndarray F) (ext : list nat) :
  np_broadcast_to a (ext ++ shape a)
  = Ok (tabulate (ext ++ shape a)
          (λ idx, item a (broadcast_index (shape a) idx))).
Proof.
  unfold np_broadcast_to. rewrite reverse_app, broadcast_rev_prefix.
  by rewrite <-reverse_app, reverse_involutive, decide_True.
Qed.

Lemma item_np_broadcast_to_prefix (a : ndarray F) (ext idx : list nat) :
  in_bounds (ext ++ shape a) idx →
  item (tabulate (ext ++ shape a)
          (λ idx, item a (broadcast_index (shape a) idx))) idx
  = item a (drop (length ext) idx).
Proof.
  intros Hb. rewrite item_tabulate by done.
  by destruct (broadcast_index_suffix _ _ _ Hb) as [-> _].
Qed.
End layout_facts.

Section transpose_facts.
Context {F : Type} `{Float F}.
Implicit Types (da : DataArray F).

(** Reading the transposed array at [idx] is reading the original array at
    the same labelled position. *)
Lemma xr_transpose_spec da names :
  names ≠ [] → NoDup names → NoDup (dims da) →
  py_set names = py_set (dims da) →
  length (dims da) = length (shape (data da)) →
  ∃ d, xr_transpose da names = Ok (mkDataArray d names (coords da))
    ∧ shape d
      = (λ k, default 0 (shape (data da) !! index_of k (dims da))) <$> names
    ∧ d = tabulate (shape d)
            (λ idx, item (data da) (select_axes names (dims da) idx))
    ∧ ∀ idx, in_bounds (shape d) idx →
        in_bounds (shape (data da)) (select_axes names (dims da) idx)
        ∧ item d idx = item (data da) (select_axes names (dims da) idx).
Proof.
  intros Hne Hnd Hndd Hset Hlen.
  pose proof (py_set_elem_of _ _ Hset) as Hin.
  pose proof (py_set_length _ _ Hnd Hndd Hset) as Hlen'.
  set (axes := (λ k, index_of k (dims da)) <$> names).
  assert (Haxes : mapM (tuple_index (dims da)) names = Ok axes).
  { apply mapM_Ok_fmap. intros k Hk. by apply tuple_index_index_of, Hin. }
  assert (Hndax : NoDup axes).
  { apply NoDup_fmap_2_strong; [|done].
    intros k k' Hk Hk'. apply index_of_inj; by apply Hin. }
  assert (Hpos : ∀ i k, dims da !! i = Some k →
                        index_of i axes = index_of k names).
  { intros i k Hi. apply index_of_lookup; [done|].
    unfold axes. rewrite list_lookup_fmap, lookup_index_of.
    - simpl. f_equal. by apply index_of_lookup.
    - apply Hin. by eapply list_elem_of_lookup_2. }
  assert (Hsel : ∀ idx,
    (λ i, default 0 (idx !! index_of i axes))
      <$> seq 0 (length (shape (data da)))
    = select_axes names (dims da) idx).
  { intros idx. unfold select_axes. apply list_eq. intros i.
    rewrite !list_lookup_fmap.
    destruct (dims da !! i) as [k|] eqn:Hi; simpl.
    - rewrite lookup_seq_lt by (rewrite <-Hlen; by eapply lookup_lt_Some).
      simpl. by rewrite (Hpos i k).
    - rewrite lookup_seq_ge; [done|]. rewrite <-Hlen.
      by apply lookup_ge_None. }
  unfold xr_transpose. rewrite decide_False, decide_True by done.
  rewrite Haxes. simpl. unfold np_transpose. rewrite decide_True.
  2:{ split_and!; [unfold axes; rewrite length_fmap; lia|done|].
      apply Forall_forall. intros ? (k & -> & Hk)%list_elem_of_fmap.
      rewrite <-Hlen. by apply index_of_lt, Hin. }
  simpl. eexists. split; [done|]. split.
  { simpl. unfold axes. rewrite <-list_fmap_compose. done. }
  split.
  { cbn [shape tabulate]. apply tabulate_ext. intros idx _. by rewrite Hsel. }
  intros idx Hb. rewrite item_tabulate by done. rewrite Hsel.
  split; [|done]. simpl in Hb. unfold axes in Hb.
  rewrite <-list_fmap_compose in Hb.
  apply Forall2_same_length_lookup_2.
  { unfold select_axes. by rewrite length_fmap. }
  intros i x n Hx Hn. unfold select_axes in Hx.
  rewrite list_lookup_fmap in Hx.
  destruct (dims da !! i) as [k|] eqn:Hi; [|done]. simpl in Hx.
  injection Hx as <-.
  assert (Hk : k ∈ names) by (apply Hin; by eapply list_elem_of_lookup_2).
  pose proof (lookup_index_of _ _ Hk) as Hj.
  destruct (lookup_lt_is_Some_2 idx (index_of k names)) as [y Hy].
  { rewrite (in_bounds_length _ _ Hb), length_fmap. by apply index_of_lt. }
  rewrite Hy. simpl.
  eapply (Forall2_lookup_lr _ _ _ (index_of k names)) in Hb; [|done|].
  2:{ rewrite list_lookup_fmap, Hj. simpl. reflexivity. }
  simpl in Hb. by rewrite (index_of_lookup _ i k), Hn in Hb.
Qed.

(** Selecting all the axes in their own order is the identity. *)
Lemma select_axes_id (names : list string) (idx : list nat) :
  NoDup names → length idx = length names → select_axes names names idx = idx.
Proof.
  intros Hnd Hlen. unfold select_axes. apply list_eq. intros i.
  rewrite list_lookup_fmap.
  destruct (names !! i) as [k|] eqn:Hi; simpl.
  - rewrite (index_of_lookup _ i k) by done.
    destruct (lookup_lt_is_Some_2 idx i) as [y ->]; [|done].
    rewrite Hlen. by eapply lookup_lt_Some.
  - symmetry. apply lookup_ge_None. rewrite Hlen. by apply lookup_ge_None.
Qed.
End transpose_facts.

Section transpose_same.
Context {F : Type} `{Float F}.
Implicit Types (da : DataArray F).

(** Transposing to the array's own axis order changes nothing. *)
Lemma xr_transpose_same da :
  NoDup (dims da) → length (dims da) = length (shape (data da)) →
  ∃ d, xr_transpose da (dims da) = Ok (mkDataArray d (dims da) (coords da))
    ∧ shape d = shape (data da)
    ∧ ∀ idx, in_bounds (shape d) idx → item d idx = item (data da) idx.
Proof.
  intros Hnd Hlen. destruct (decide (dims da = [])) as [Hd|Hd].
  - destruct da as [a ds cs]. simpl in *. subst ds. simpl in Hlen.
    destruct (shape a) as [|??] eqn:Hs; [|done].
    unfold xr_transpose. simpl. rewrite !reverse_nil.
    unfold np_transpose. rewrite Hs.
    destruct (decide _) as [_|Hc].
    2:{ destruct Hc. split_and!; [done|apply NoDup_nil_2|done]. }
    simpl. eexists. split; [done|]. split; [done|].
    intros idx Hb. rewrite item_tabulate by done.
    apply Forall2_nil_inv_r in Hb as ->. done.
  - destruct (xr_transpose_spec da (dims da)) as (d & Hd' & Hs & _ & Hit);
      [done..|].
    exists d. split; [done|].
    assert (Hs' : shape d = shape (data da)).
    { rewrite Hs. apply list_eq. intros i. rewrite list_lookup_fmap.
      destruct (dims da !! i) as [k|] eqn:Hi; simpl.
      - rewrite (index_of_lookup _ i k) by done.
        destruct (lookup_lt_is_Some_2 (shape (data da)) i) as [n ->]; [|done].
        rewrite <-Hlen. by eapply lookup_lt_Some.
      - symmetry. apply lookup_ge_None. rewrite <-Hlen.
        by apply lookup_ge_None. }
    split; [done|]. intros idx Hb.
    destruct (Hit idx Hb) as [_ ->]. rewrite select_axes_id; [done..|].
    rewrite (in_bounds_length _ _ Hb), Hs'. done.
Qed.

(** The constructor accepts the request as coordinates of an array that has
    one axis per requested key, of the requested length. *)
Lemma check_request_coords (vectors : list (string * list F)) :
  NoDup vectors.*1 →
  Forall (λ c, check_coord (length <$> vectors.*2) vectors.*1 c = Ok ())
         vectors.
Proof.
  intros Hnd. apply Forall_forall. intros [k v] Hin.
  apply list_elem_of_lookup in Hin as [i Hi].
  apply (check_coord_Ok _ _ _ _ i); [done|..].
  - by rewrite list_lookup_fmap, Hi.
  - by rewrite !list_lookup_fmap, Hi.
Qed.
End transpose_same.

(** ** Case 2: the array squeezes to a scalar *)

Section case2.
Context {F : Type} `{Float F}.
Implicit Types (RegularGridInterpolator : grid_kernel_t F)
  (self : DataArray F) (fv : pyvalue F) (vectors : list (string * list F)).

(** C7. When every axis of the array has extent 1, [interpn] invokes no
    kernel: the result has the request's keys as axes, in the request's
    order, the requested number of samples on each axis, the request as
    coordinates, and the array's single element everywhere. *)
Theorem interpn_scalar_broadcast self be fv ext vectors :
  wf_DataArray self →
  NoDup vectors.*1 →
  dims (squeeze_drop self) = [] →
  ∃ z out,
    buffer (data self) = [z]
    ∧ (∀ RegularGridInterpolator,
         interpn RegularGridInterpolator self be fv ext vectors = Ok out)
    ∧ dims out = vectors.*1
    ∧ coords out = vectors
    ∧ shape (data out) = length <$> vectors.*2
    ∧ ∀ idx, in_bounds (shape (data out)) idx → item (data out) idx = z.
Proof.
  intros Hwf Hnd Hd.
  destruct (squeeze_drop_scalar self Hwf Hd) as (z & Hsq & Hbuf).
  set (s := length <$> vectors.*2).
  set (b := tabulate (s ++ []) (λ idx,
              item (NdArray [] [z]) (broadcast_index [] idx))).
  destruct (xr_transpose_same (mkDataArray b vectors.*1 vectors))
    as (d & Hd' & Hs & Hit); simpl.
  { done. }
  { unfold s. by rewrite app_nil_r, !length_fmap. }
  cbn [data dims coords] in *. exists z, (mkDataArray d vectors.*1 vectors).
  split; [done|]. split.
  { intros rgi. unfold interpn. rewrite decide_True by done.
    unfold copy_copy. rewrite Hsq. fold s.
    rewrite <-(app_nil_r s) at 1.
    rewrite (np_broadcast_to_prefix (NdArray [] [z]) s). simpl. fold b.
    rewrite xr_DataArray_Ok.
    - simpl. done.
    - simpl. unfold s. by rewrite app_nil_r, !length_fmap.
    - simpl. rewrite app_nil_r. by apply check_request_coords. }
  split; [done|]. split; [done|]. cbn [data]. split.
  { rewrite Hs. unfold b. simpl. by rewrite app_nil_r. }
  intros idx Hb. rewrite Hit by done. rewrite Hs in Hb.
  unfold b. rewrite item_tabulate by done. done.
Qed.
End case2.

(** ** Which failures are [NotImplementedError] *)

Lemma no_NIE_bind {A B} (m : result A) (f : A → result B) :
  no_NIE m → (∀ a, no_NIE (f a)) → no_NIE (m ≫= f).
Proof.
  intros Hm Hf. destruct m as [a|e]; [apply Hf|].
  intros [= ->]. by apply Hm.
Qed.

Lemma no_NIE_mapM {A B} (f : A → result B) (l : list A) :
  (∀ x, no_NIE (f x)) → no_NIE (mapM f l).
Proof.
  intros Hf. induction l as [|x l IH]; simpl; [done|].
  apply no_NIE_bind; [done|]. intros y. by apply no_NIE_bind.
Qed.

Lemma no_NIE_lib {A} (r : string + A) : no_NIE (lib r).
Proof. by destruct r. Qed.

Ltac no_NIE_step :=
  first
    [ apply no_NIE_bind; [|intros ?]
    | apply no_NIE_mapM; intros ?
    | apply no_NIE_lib
    | case_decide
    | case_match
    | done ].

Section no_NIE_facts.
Context {F : Type} `{Float F}.

Lemma no_NIE_np_broadcast_to (a : ndarray F) s : no_NIE (np_broadcast_to a s).
Proof. unfold np_broadcast_to. repeat no_NIE_step. Qed.

Lemma no_NIE_np_add (a b : ndarray F) : no_NIE (np_add a b).
Proof. unfold np_add, broadcast_shapes. repeat no_NIE_step. Qed.

Lemma no_NIE_np_reshape (a : ndarray F) s : no_NIE (np_reshape a s).
Proof. unfold np_reshape. repeat no_NIE_step. Qed.

Lemma no_NIE_np_transpose (a : ndarray F) axes : no_NIE (np_transpose a axes).
Proof. unfold np_transpose. repeat no_NIE_step. Qed.

Lemma no_NIE_xr_DataArray (d : ndarray F) cs ds : no_NIE (xr_DataArray d cs ds).
Proof. unfold xr_DataArray, check_coord. repeat no_NIE_step. Qed.

Lemma no_NIE_xr_transpose (da : DataArray F) names :
  no_NIE (xr_transpose da names).
Proof.
  unfold xr_transpose, tuple_index.
  repeat first [apply no_NIE_np_transpose | no_NIE_step].
Qed.

Lemma no_NIE__interpn (rgi : grid_kernel_t F) da be fv vectors :
  no_NIE (_interpn rgi da be fv vectors).
Proof.
  unfold _interpn, rgi_call, dict_getitem.
  repeat first [apply no_NIE_np_add | apply no_NIE_np_reshape | no_NIE_step].
Qed.
End no_NIE_facts.

(** ** The dispatch of [interpn] on the two key sets *)

Section dispatch.
Context {F : Type} `{Float F}.
Implicit Types (RegularGridInterpolator : grid_kernel_t F)
  (self : DataArray F) (fv : pyvalue F) (vectors : list (string * list F)).

(** C2, amended.  Leaving aside a request that is a strict subset of the
    squeezed axes with [extend_dims=True]: [interpn] raises
    [NotImplementedError] (the specification's UnsupportedShapeError) exactly
    when the squeezed axis set is not empty, [extend_dims] is false, and the
    requested axis set is a strict superset or a strict subset of it. *)
Theorem interpn_NotImplementedError RegularGridInterpolator self be fv ext
    vectors :
  ¬ (py_set vectors.*1 ⊂ py_set (dims (squeeze_drop self)) ∧ ext = true) →
  interpn RegularGridInterpolator self be fv ext vectors
  = Raise NotImplementedError
  ↔ dims (squeeze_drop self) ≠ []
    ∧ ext = false
    ∧ (py_set (dims (squeeze_drop self)) ⊂ py_set vectors.*1
       ∨ py_set vectors.*1 ⊂ py_set (dims (squeeze_drop self))).
Proof.
  intros Hslip. unfold interpn.
  destruct (decide (dims (squeeze_drop self) = [])) as [Hd|Hd].
  { split; [|by intros [? _]]. intros Hn. exfalso. revert Hn.
    repeat first [apply no_NIE_np_broadcast_to | apply no_NIE_xr_DataArray
                 | apply no_NIE_xr_transpose | no_NIE_step]. }
  destruct (decide (py_set vectors.*1 = py_set (dims (squeeze_drop self))))
    as [Heq|Hneq].
  { split.
    - intros Hn. exfalso. revert Hn.
      repeat first [apply no_NIE__interpn | apply no_NIE_xr_DataArray
                   | no_NIE_step].
    - rewrite Heq. intros (_ & _ & [[_ Hs]|[_ Hs]]); by destruct Hs. }
  destruct (decide (py_set (dims (squeeze_drop self)) ⊂ py_set vectors.*1))
    as [Hsup|Hnsup].
  { destruct ext.
    - split; [|by intros (_ & ? & _)]. intros Hn. exfalso. revert Hn.
      repeat first [apply no_NIE__interpn | apply no_NIE_np_broadcast_to
                   | apply no_NIE_xr_DataArray | apply no_NIE_xr_transpose
                   | no_NIE_step].
    - split; [|done]. intros _. split_and!; [done..|by left]. }
  destruct (decide (py_set vectors.*1 ⊂ py_set (dims (squeeze_drop self))))
    as [Hsub|Hnsub].
  { destruct ext.
    - by destruct Hslip.
    - split; [|done]. intros _. split_and!; [done..|by right]. }
  split; [done|]. by intros (_ & _ & [?|?]).
Qed.
End dispatch.

(** ** Case 3 under a request in another order than the array's axes *)

Section case3_order.
Context {F : Type} `{Float F}.

Lemma rgi_call_cases (f : list F → string + scalar F) (pts : list (list F)) :
  (∃ msg, rgi_call f pts = Raise (ValueError msg))
  ∨ (∃ vals, rgi_call f pts = Ok (NdArray [length pts] vals)
             ∧ length vals = length pts).
Proof.
  unfold rgi_call.
  assert (Hm : (∃ msg, mapM (λ p, lib (f p)) pts = Raise (ValueError msg))
               ∨ (∃ vals, mapM (λ p, lib (f p)) pts = Ok vals
                          ∧ length vals = length pts)).
  { induction pts as [|p pts IH]; simpl; [right; by exists []|].
    destruct (f p) as [msg|v]; simpl; [left; by exists msg|].
    destruct IH as [[msg ->]|(vals & -> & Hlen)]; simpl.
    - left. by exists msg.
    - right. exists (v :: vals). simpl. by rewrite Hlen. }
  destruct Hm as [[msg ->]|(vals & -> & Hlen)]; simpl.
  - left. by exists msg.
  - right. by exists vals.
Qed.
End case3_order.

Section case3_order_scenario.
Import Exact Scenario.

(** C1, at a failing input.  Scenario B asked for [y] first then [x], with
    three samples on [y] and two on [x]: whatever the kernel computes,
    [_interpn] returns its values in the array's own axis order [(x, y)],
    case 3 labels them [(y, x)] without transposing, and the constructor
    refuses the sizes.  No array of shape [(3, 2)] is returned. *)
Lemma interpn_case3_reordered_request_fails :
  ∀ RegularGridInterpolator : grid_kernel_t Q,
    ∃ msg,
      interpn RegularGridInterpolator array_B false PyNone true
              [("y", [0; 1 # 2; 1]%Q); ("x", points [0; 1]%Z)]
      = Raise (ValueError msg).
Proof.
  intros rgi. unfold interpn.
  destruct (decide (dims (squeeze_drop array_B) = [])) as [Hd|_].
  { vm_compute in Hd. discriminate Hd. }
  destruct (decide (py_set _ = py_set (dims (squeeze_drop array_B))))
    as [_|Hs]; [|destruct Hs; by_evaluation].
  unfold copy_deepcopy, _interpn.
  replace (mapM _ (dims (squeeze_drop array_B)))
    with (Ok [points [0; 1]%Z; [0; 1 # 2; 1]%Q] : result (list (list Q)))
    by (by vm_compute).
  cbn [mbind result_bind].
  replace (np_any_iscomplex (data (squeeze_drop array_B))) with false
    by (by vm_compute).
  simpl. destruct (rgi _ _ _ _) as [msg|f]; simpl; [by exists msg|].
  match goal with |- context [rgi_call f ?pts] =>
    destruct (rgi_call_cases f pts) as [[msg ->]|(vals & -> & Hlen)]
  end.
  - by exists msg.
  - eexists. vm_compute. reflexivity.
Qed.

(** With the reference kernel the failure is the size conflict. *)
Example interpn_case3_reordered_request_conflict :
  interpn grid_kernel array_B false PyNone true
          [("y", [0; 1 # 2; 1]%Q); ("x", points [0; 1]%Z)]
  = Raise (ValueError "conflicting sizes for dimension").
Proof. vm_compute. reflexivity. Qed.

(** When both requests have the same length nothing fails, and the values
    sit under the wrong labels: the request [(y, x)] gets the buffer of the
    request [(x, y)], so the element labelled [y = 0, x = 1] is the array's
    value at [x = 0, y = 1]. *)
Example interpn_case3_reordered_request_mislabels :
  interpn grid_kernel array_B false PyNone true
          [("y", points [0; 1]%Z); ("x", points [0; 1]%Z)]
  = Ok (mkDataArray (NdArray [2; 2] (real <$> [0; 1; 2; 3]%Z)) ["y"; "x"]
                    [("y", points [0; 1]%Z); ("x", points [0; 1]%Z)])
  ∧ data <$> interpn grid_kernel array_B false PyNone true
                     [("x", points [0; 1]%Z); ("y", points [0; 1]%Z)]
    = Ok (NdArray [2; 2] (real <$> [0; 1; 2; 3]%Z)).
Proof. split; vm_compute; reflexivity. Qed.

(** C2, as stated, fails by design when the array squeezes to a scalar:
    the request is a strict superset of the (empty) squeezed axis set and
    [extend_dims] is false, yet [interpn] broadcasts and returns. *)
Lemma interpn_superset_of_scalar_returns :
  py_set (dims (squeeze_drop array_C)) ⊂ py_set ["y"; "x"]
  ∧ interpn grid_kernel array_C false PyNone false
            [("y", points [10; 20; 30]%Z); ("x", points [0; 1]%Z)]
    = Ok (mkDataArray (NdArray [3; 2] (real <$> [5; 5; 5; 5; 5; 5]%Z))
                      ["y"; "x"]
                      [("y", points [10; 20; 30]%Z); ("x", points [0; 1]%Z)]).
Proof. split; [by_evaluation|vm_compute; reflexivity]. Qed.

(** The strict subset with the default [extend_dims=True] does not reach
    its [raise NotImplementedError]: reading the unassigned local [data]
    fails first.  With [extend_dims=False] it raises it. *)
Example interpn_strict_subset_scenario_B :
  interpn grid_kernel array_B false PyNone true [("x", points [0; 1]%Z)]
  = Raise (UnboundLocalError "data")
  ∧ interpn grid_kernel array_B false PyNone false [("x", points [0; 1]%Z)]
    = Raise NotImplementedError.
Proof. split; vm_compute; reflexivity. Qed.

Lemma interpn_NotImplementedError_witness :
  ¬ (py_set [("x", points [0; 1]%Z)].*1
       ⊂ py_set (dims (squeeze_drop array_B)) ∧ false = true)
  ∧ (interpn grid_kernel array_B false PyNone false [("x", points [0; 1]%Z)]
     = Raise NotImplementedError
     ↔ dims (squeeze_drop array_B) ≠ []
       ∧ false = false
       ∧ (py_set (dims (squeeze_drop array_B))
            ⊂ py_set [("x", points [0; 1]%Z)].*1
          ∨ py_set [("x", points [0; 1]%Z)].*1
              ⊂ py_set (dims (squeeze_drop array_B)))).
Proof.
  assert (Hslip : ¬ (py_set [("x", points [0; 1]%Z)].*1
                       ⊂ py_set (dims (squeeze_drop array_B))
                     ∧ false = true)).
  { intros [_ Hf]. discriminate Hf. }
  split; [exact Hslip|].
  exact (interpn_NotImplementedError grid_kernel array_B false PyNone false
           [("x", points [0; 1]%Z)] Hslip).
Defined.
End case3_order_scenario.

(** ** Case 4: the request extends the array's axes *)

Section case4_facts.
Context {F : Type} `{Float F}.
Implicit Types (vectors : list (string * list F)) (keys : list string).

Lemma filter_fst {A} (P : string → Prop) `{∀ k, Decision (P k)}
    (m : list (string * A)) :
  (filter (λ c, P c.1) m).*1 = filter P m.*1.
Proof.
  induction m as [|[k v] m IH]; [done|].
  rewrite fmap_cons. cbn [fst]. rewrite !filter_cons. cbn [fst].
  destruct (decide (P k)); [rewrite fmap_cons; cbn [fst]|]; by rewrite IH.
Qed.

Lemma dict_setitem_fresh {A} (m : list (string * A)) k v :
  k ∉ m.*1 → dict_setitem m k v = m ++ [(k, v)].
Proof.
  induction m as [|[k' v'] m IH]; simpl; [done|].
  intros [Hne Hk]%not_elem_of_cons. rewrite decide_False by done.
  by rewrite IH.
Qed.

Lemma dict_merge_disjoint {A} (m1 m2 : list (string * A)) :
  NoDup m2.*1 → (∀ k, k ∈ m2.*1 → k ∉ m1.*1) →
  dict_merge m1 m2 = m1 ++ m2.
Proof.
  unfold dict_merge. revert m1.
  induction m2 as [|[k v] m2 IH]; intros m1 Hnd Hdis; simpl.
  - by rewrite app_nil_r.
  - apply list.NoDup_cons in Hnd as [Hk Hnd].
    rewrite dict_setitem_fresh by (apply Hdis; by left).
    rewrite IH; [by rewrite <-app_assoc|done|].
    intros k' Hk'. rewrite fmap_app, elem_of_app. simpl.
    intros [Hin| ->%list_elem_of_singleton]; [|done].
    revert Hin. apply Hdis. by right.
Qed.

Lemma mapM_ext_in {A B} (f g : A → result B) (l : list A) :
  (∀ x, x ∈ l → f x = g x) → mapM f l = mapM g l.
Proof.
  induction l as [|x l IH]; intros Hfg; simpl; [done|].
  rewrite Hfg by by left. rewrite IH; [done|].
  intros y Hy. apply Hfg. by right.
Qed.

(** Coordinates that pass do not change the outcome of the checks that
    follow them. *)
Lemma mapM_check_app {A B} (f g : A → result unit) (l1 l2 : list A)
    (k : result B) :
  (∀ x, x ∈ l1 → f x = Ok ()) → (∀ x, x ∈ l2 → f x = g x) →
  (mapM f (l1 ++ l2) ≫= λ _, k) = (mapM g l2 ≫= λ _, k).
Proof.
  intros Hl1 Hl2. induction l1 as [|x l1 IH]; simpl.
  - by rewrite (mapM_ext_in f g).
  - rewrite Hl1 by by left. simpl. rewrite <-IH.
    + by destruct (mapM f (l1 ++ l2)).
    + intros y Hy. apply Hl1. by right.
Qed.

Lemma check_coord_app_l (e s : list nat) (eks iks : list string) k
    (v : list F) i :
  NoDup (eks ++ iks) → eks !! i = Some k → e !! i = Some (length v) →
  check_coord (e ++ s) (eks ++ iks) (k, v) = Ok ().
Proof.
  intros Hnd Hk He. apply (check_coord_Ok _ _ _ _ i); [done|..].
  - by apply lookup_app_l_Some.
  - by apply lookup_app_l_Some.
Qed.

Lemma check_coord_app_r (e s : list nat) (eks iks : list string)
    (c : string * list F) :
  length e = length eks → c.1 ∉ eks →
  check_coord (e ++ s) (eks ++ iks) c = check_coord s iks c.
Proof.
  intros Hlen Hk. unfold check_coord.
  assert (Hnone : list_find (c.1 =.) eks = None).
  { apply list_find_None, Forall_forall. intros y Hy Heq.
    apply Hk. by rewrite Heq. }
  rewrite list_find_app_r by done.
  destruct (list_find (c.1 =.) iks) as [[i y]|]; simpl; [|done].
  rewrite lookup_app_r by lia.
  replace (i + length eks - length e) with i by lia. done.
Qed.

(** The shape of what [_interpn] returns: one axis per axis of the array,
    in the array's order, as long as the requested vector of that axis. *)
Lemma _interpn_shape (rgi : grid_kernel_t F) da be fv vectors d :
  _interpn rgi da be fv vectors = Ok d →
  ∃ pts, mapM (dict_getitem vectors) (dims da) = Ok pts
         ∧ shape d = length <$> pts.
Proof.
  unfold _interpn, np_reshape.
  destruct (mapM _ (dims da)) as [pts|]; simpl; [|done].
  intros Hd. exists pts. split; [done|].
  repeat (case_match || case_decide || simplify_eq/=); try done.
  all: repeat match goal with
       | H : context [lib ?r] |- _ => destruct r; simplify_eq/=
       | H : context [rgi_call ?f ?p] |- _ =>
           destruct (rgi_call f p); simplify_eq/=
       | H : context [np_add ?a ?b] |- _ =>
           destruct (np_add a b); simplify_eq/=
       | H : context [decide ?P] |- _ => destruct (decide P); simplify_eq/=
       end; done.
Qed.
End case4_facts.

Section case4_more_facts.
Context {F : Type} `{Float F}.

Lemma length_mapM_result {A B} (f : A → result B) (l : list A) r :
  mapM f l = Ok r → length r = length l.
Proof.
  revert r. induction l as [|x l IH]; intros r; simpl; [by intros [= <-]|].
  destruct (f x); simpl; [|done]. destruct (mapM f l); simpl; [|done].
  intros [= <-]. simpl. by rewrite (IH _ eq_refl).
Qed.

Lemma mapM_Ok_elem {A B} (f : A → result B) (l : list A) r x :
  mapM f l = Ok r → x ∈ l → ∃ y, f x = Ok y.
Proof.
  revert r. induction l as [|x' l IH]; intros r; simpl.
  { by intros _ ?%elem_of_nil. }
  destruct (f x') as [y'|] eqn:Hx'; simpl; [|done].
  destruct (mapM f l) as [r'|]; simpl; [|done].
  intros _ [->|Hin]%elem_of_cons; [by exists y'|]. by eapply IH.
Qed.

Lemma check_coord_Ok_inv (s : list nat) (ds : list string)
    (c : string * list F) :
  check_coord s ds c = Ok () →
  c.1 ∈ ds ∧ s !! index_of c.1 ds = Some (length c.2).
Proof.
  unfold check_coord, index_of.
  destruct (list_find (c.1 =.) ds) as [[i y]|] eqn:Hf; [|done].
  case_decide; [|done]. intros _. simpl. split; [|done].
  apply list_find_Some in Hf as (Hi & -> & _).
  by eapply list_elem_of_lookup_2.
Qed.

Lemma index_of_app_l (l1 l2 : list string) k :
  k ∈ l1 → index_of k (l1 ++ l2) = index_of k l1.
Proof.
  intros Hk. unfold index_of.
  destruct (list_find (k =.) l1) as [[i y]|] eqn:Hf.
  - by erewrite list_find_app_l.
  - apply list_find_None in Hf. rewrite Forall_forall in Hf.
    by destruct (Hf k Hk).
Qed.

Lemma index_of_app_r (l1 l2 : list string) k :
  k ∉ l1 → k ∈ l2 → index_of k (l1 ++ l2) = length l1 + index_of k l2.
Proof.
  intros Hk1 Hk2. unfold index_of.
  rewrite list_find_app_r.
  2:{ apply list_find_None, Forall_forall. by intros y Hy ->. }
  destruct (list_find (k =.) l2) as [[i y]|] eqn:Hf; simpl; [lia|].
  apply list_find_None in Hf. rewrite Forall_forall in Hf.
  by destruct (Hf k Hk2).
Qed.

Lemma select_axes_app (names l1 l2 : list string) idx :
  select_axes names (l1 ++ l2) idx
  = select_axes names l1 idx ++ select_axes names l2 idx.
Proof. unfold select_axes. by rewrite fmap_app. Qed.

Lemma length_select_axes (names kept : list string) idx :
  length (select_axes names kept idx) = length kept.
Proof. unfold select_axes. by rewrite length_fmap. Qed.
End case4_more_facts.

Section case4.
Context {F : Type} `{Float F}.
Implicit Types (RegularGridInterpolator : grid_kernel_t F)
  (self : DataArray F) (fv : pyvalue F) (vectors : list (string * list F)).

(** Case 3 as an equation. *)
Lemma interpn_case3 RegularGridInterpolator self be fv ext vectors :
  dims (squeeze_drop self) ≠ [] →
  py_set vectors.*1 = py_set (dims (squeeze_drop self)) →
  interpn RegularGridInterpolator self be fv ext vectors
  = (i_data ← _interpn RegularGridInterpolator (squeeze_drop self) be fv
                       vectors;
     xr_DataArray i_data vectors vectors.*1).
Proof.
  intros Hne Heq. unfold interpn.
  by rewrite decide_False, decide_True.
Qed.

(** Case 4 as an equation: the interpolation over the axes of the array,
    the constructor's check of the interpolated coordinates (the one of
    case 3), and the table that reads the interpolated block at the part of
    each index that belongs to the interpolated axes. *)
Lemma interpn_case4 RegularGridInterpolator self be fv vectors :
  wf_DataArray self →
  NoDup vectors.*1 →
  dims (squeeze_drop self) ≠ [] →
  py_set (dims (squeeze_drop self)) ⊂ py_set vectors.*1 →
  let da := squeeze_drop self in
  let iv := filter (λ c, c.1 ∈ dims da) vectors in
  let ev := filter (λ c, c.1 ∉ dims da) vectors in
  py_set iv.*1 = py_set (dims da)
  ∧ interpn RegularGridInterpolator self be fv true vectors
    = (i_data ← _interpn RegularGridInterpolator da be fv iv;
       _ ← xr_DataArray i_data iv iv.*1;
       Ok (mkDataArray
             (tabulate (length <$> vectors.*2)
                (λ idx, item i_data (select_axes vectors.*1 iv.*1 idx)))
             vectors.*1 (ev ++ iv)))
  ∧ ∀ i_data c3,
      _interpn RegularGridInterpolator da be fv iv = Ok i_data →
      xr_DataArray i_data iv iv.*1 = Ok c3 →
      ∀ idx, in_bounds (length <$> vectors.*2) idx →
             in_bounds (shape i_data) (select_axes vectors.*1 iv.*1 idx).
Proof.
  intros Hwf Hnd Hne Hsub da iv ev.
  pose proof (wf_squeeze_drop _ Hwf) as Hwf'.
  pose proof Hwf' as (_ & HndA & _).
  fold da in Hwf', HndA, Hne, Hsub. set (A := dims da) in *.
  set (keys := vectors.*1) in *.
  set (ik := filter (λ k, k ∈ A) keys).
  set (ek := filter (λ k, k ∉ A) keys).
  assert (Hiv : iv.*1 = ik) by exact (filter_fst (λ k, k ∈ A) vectors).
  assert (Hev : ev.*1 = ek) by exact (filter_fst (λ k, k ∉ A) vectors).
  assert (HAk : ∀ x, x ∈ A → x ∈ keys).
  { apply elem_of_subset in Hsub as [Hs _]. intros x Hx.
    apply (elem_of_list_to_set (C := gset string)), Hs.
    by apply elem_of_list_to_set. }
  assert (Hik_set : py_set ik = py_set A).
  { apply set_eq. intros x. unfold py_set, ik.
    rewrite !elem_of_list_to_set, list_elem_of_filter.
    split; [by intros [? _]|]. intros Hx. split; [done|by apply HAk]. }
  assert (Hkeys_ne : py_set keys ≠ py_set A).
  { intros Heq. rewrite Heq in Hsub. by destruct Hsub as [_ []]. }
  assert (Hndik : NoDup ik) by by apply NoDup_filter.
  assert (Hndek : NoDup ek) by by apply NoDup_filter.
  assert (Hndd : NoDup (ek ++ ik)).
  { apply NoDup_app. split_and!; [done| |done].
    intros x [Hx _]%list_elem_of_filter [Hx' _]%list_elem_of_filter. done. }
  assert (Hset : py_set keys = py_set (ek ++ ik)).
  { apply set_eq. intros x. unfold py_set, ek, ik.
    rewrite !elem_of_list_to_set, elem_of_app, !list_elem_of_filter.
    destruct (decide (x ∈ A)); tauto. }
  assert (Hkne : keys ≠ []).
  { destruct A as [|a A'] eqn:HA; [done|]. intros Hk.
    assert (a ∈ keys) as Ha by (apply HAk; by left).
    rewrite Hk in Ha. by apply elem_of_nil in Ha. }
  assert (Hmerge : dict_merge ev iv = ev ++ iv).
  { apply dict_merge_disjoint; [by rewrite Hiv|].
    rewrite Hiv, Hev. intros k [Hk _]%list_elem_of_filter
      [Hk' _]%list_elem_of_filter. done. }
  rewrite Hiv. split; [done|].
  (* what holds once the interpolation and the check have succeeded *)
  assert (Hmain : ∀ i_data c3,
    _interpn RegularGridInterpolator da be fv iv = Ok i_data →
    xr_DataArray i_data iv ik = Ok c3 →
    let e := length <$> ev.*2 in
    let b := tabulate (e ++ shape i_data)
               (λ idx, item i_data (broadcast_index (shape i_data) idx)) in
    xr_DataArray b (ev ++ iv) (ek ++ ik)
    = Ok (mkDataArray b (ek ++ ik) (ev ++ iv))
    ∧ xr_transpose (mkDataArray b (ek ++ ik) (ev ++ iv)) keys
      = Ok (mkDataArray
              (tabulate (length <$> vectors.*2)
                 (λ idx, item i_data (select_axes keys ik idx)))
              keys (ev ++ iv))
    ∧ ∀ idx, in_bounds (length <$> vectors.*2) idx →
             in_bounds (shape i_data) (select_axes keys ik idx)).
  { intros i_data c3 Hi Hc3 e b.
    assert (Hlen_e : length e = length ek).
    { unfold e. by rewrite <-Hev, !length_fmap. }
    assert (Hlen_s : length ik = length (shape i_data)).
    { revert Hc3. unfold xr_DataArray. by case_decide. }
    assert (Hchk : Forall (λ c, check_coord (shape i_data) ik c = Ok ()) iv).
    { revert Hc3. unfold xr_DataArray. rewrite decide_True by done.
      destruct (mapM _ iv) as [us|] eqn:Hm; [|done]. intros _.
      apply Forall_forall. intros c Hc.
      by destruct (mapM_Ok_elem _ _ _ _ Hm Hc) as [[] ?]. }
    rewrite Forall_forall in Hchk.
    assert (Hb : xr_DataArray b (ev ++ iv) (ek ++ ik)
                 = Ok (mkDataArray b (ek ++ ik) (ev ++ iv))).
    { apply xr_DataArray_Ok.
      { cbn [b shape tabulate]. rewrite !length_app. lia. }
      cbn [b shape tabulate]. apply Forall_app. split; apply Forall_forall.
      - intros [k v] Hin. apply list_elem_of_lookup in Hin as [m Hm].
        apply (check_coord_app_l _ _ _ _ _ _ m); [done|..].
        + by rewrite <-Hev, list_lookup_fmap, Hm.
        + unfold e. by rewrite !list_lookup_fmap, Hm.
      - intros c Hc. rewrite check_coord_app_r; [by apply Hchk|done|].
        apply list_elem_of_filter in Hc as [Hc _].
        by intros [Hc' _]%list_elem_of_filter. }
    split; [done|].
    destruct (xr_transpose_spec (mkDataArray b (ek ++ ik) (ev ++ iv)) keys)
      as (d & Hd & Hsd & Htab & Hit); [done..| |].
    { cbn [data dims b tabulate shape]. rewrite !length_app. lia. }
    cbn [data dims coords] in *.
    assert (Hshape : shape d = length <$> vectors.*2).
    { rewrite Hsd. apply list_eq. intros j. unfold keys.
      rewrite !list_lookup_fmap.
      destruct (vectors !! j) as [[k v]|] eqn:Hj; [|done]. simpl. f_equal.
      assert (Hin : (k, v) ∈ vectors) by by eapply list_elem_of_lookup_2.
      destruct (decide (k ∈ A)) as [Hk|Hk].
      + assert (Hiv' : (k, v) ∈ iv) by by apply list_elem_of_filter.
        destruct (check_coord_Ok_inv _ _ _ (Hchk _ Hiv')) as [Hkik Hs].
        simpl in Hkik, Hs.
        rewrite index_of_app_r; [|by intros [? _]%list_elem_of_filter|done].
        rewrite lookup_app_r by lia.
        replace (length ek + index_of k ik - length e) with (index_of k ik)
          by lia.
        by rewrite Hs.
      + assert (Hev' : (k, v) ∈ ev) by by apply list_elem_of_filter.
        apply list_elem_of_lookup in Hev' as [m Hm].
        assert (Hkm : ek !! m = Some k).
        { by rewrite <-Hev, list_lookup_fmap, Hm. }
        rewrite (index_of_lookup _ m k); [|done|by apply lookup_app_l_Some].
        rewrite lookup_app_l by (rewrite Hlen_e; by eapply lookup_lt_Some).
        unfold e. by rewrite !list_lookup_fmap, Hm. }
    assert (Hsel : ∀ idx, in_bounds (shape d) idx →
              in_bounds (shape i_data) (select_axes keys ik idx)
              ∧ item b (select_axes keys (ek ++ ik) idx)
                = item i_data (select_axes keys ik idx)).
    { intros idx Hidx. destruct (Hit idx Hidx) as [Hb' _].
      unfold b in *. cbn [shape tabulate] in Hb'.
      rewrite item_np_broadcast_to_prefix by done.
      destruct (broadcast_index_suffix _ _ _ Hb') as [_ Hin].
      rewrite select_axes_app, drop_app_length' in Hin
        by by rewrite length_select_axes.
      split; [done|].
      rewrite select_axes_app, drop_app_length'; [done|].
      by rewrite length_select_axes. }
    split.
    - rewrite Hd. do 2 f_equal. rewrite Htab, Hshape.
      apply tabulate_ext. intros idx Hidx. rewrite <-Hshape in Hidx.
      by destruct (Hsel idx Hidx) as [_ ->].
    - intros idx Hidx. rewrite <-Hshape in Hidx.
      by destruct (Hsel idx Hidx) as [? _]. }
  split.
  - unfold interpn. fold da. fold A. fold keys. fold iv ev ik ek.
    rewrite decide_False by done. rewrite decide_False by done.
    rewrite decide_True by done. unfold copy_deepcopy.
    destruct (_interpn RegularGridInterpolator da be fv iv) as [i_data|e]
      eqn:Hi; [|done].
    cbn [mbind result_bind].
    rewrite np_broadcast_to_prefix. cbn [mbind result_bind].
    rewrite Hmerge.
    destruct (xr_DataArray i_data iv ik) as [c3|err] eqn:Hc3.
    + destruct (Hmain i_data c3 eq_refl Hc3) as (-> & Ht & _).
      cbn [mbind result_bind]. by rewrite Ht.
    + cbn [mbind result_bind]. revert Hc3. unfold xr_DataArray.
      cbn [shape tabulate].
      destruct (_interpn_shape _ _ _ _ _ _ Hi) as (pts & Hpts & Hshape).
      fold A in Hpts. apply length_mapM_result in Hpts.
      assert (Hlen_s : length ik = length (shape i_data)).
      { rewrite Hshape, length_fmap, Hpts. by apply py_set_length. }
      rewrite decide_True by done.
      rewrite decide_True
        by (rewrite !length_app, <-Hev, !length_fmap; lia).
      rewrite (mapM_check_app _ (check_coord (shape i_data) ik) ev iv).
      * by destruct (mapM _ iv).
      * intros [k v] Hin. apply list_elem_of_lookup in Hin as [m Hm].
        apply (check_coord_app_l _ _ _ _ _ _ m); [done|..].
        -- by rewrite <-Hev, list_lookup_fmap, Hm.
        -- by rewrite !list_lookup_fmap, Hm.
      * intros c [Hc _]%list_elem_of_filter.
        apply check_coord_app_r; [by rewrite <-Hev, !length_fmap|].
        by intros [Hc' _]%list_elem_of_filter.
  - intros i_data c3 Hi Hc3. by destruct (Hmain i_data c3 Hi Hc3) as (_ & _ & ?).
Qed.

(** C6. Let the request strictly extend the squeezed axes of the array,
    with [extend_dims=True], and consider the call restricted to the
    requested axes that the array has (a case-3 call).  If that call raises,
    so does the full call, with the same exception.  If it returns [c3], the
    full call returns an array whose axes are the request's keys in the
    request's order, with the requested number of samples on each, and whose
    element at any index is the element of [c3] at the part of the index
    that belongs to the interpolated axes: the extension axes do not
    matter, so all the slices along an extension axis are equal. *)
Theorem interpn_extend_dims RegularGridInterpolator self be fv vectors :
  wf_DataArray self →
  NoDup vectors.*1 →
  dims (squeeze_drop self) ≠ [] →
  py_set (dims (squeeze_drop self)) ⊂ py_set vectors.*1 →
  match interpn RegularGridInterpolator self be fv true
                (filter (λ c, c.1 ∈ dims (squeeze_drop self)) vectors) with
  | Ok c3 =>
      ∃ out,
        interpn RegularGridInterpolator self be fv true vectors = Ok out
        ∧ dims out = vectors.*1
        ∧ shape (data out) = length <$> vectors.*2
        ∧ dims c3
          = (filter (λ c, c.1 ∈ dims (squeeze_drop self)) vectors).*1
        ∧ (∀ idx, in_bounds (shape (data out)) idx →
             item (data out) idx
             = item (data c3) (select_axes vectors.*1 (dims c3) idx))
        ∧ (∀ idx idx',
             in_bounds (shape (data out)) idx →
             in_bounds (shape (data out)) idx' →
             select_axes vectors.*1 (dims c3) idx
             = select_axes vectors.*1 (dims c3) idx' →
             item (data out) idx = item (data out) idx')
  | Raise e =>
      interpn RegularGridInterpolator self be fv true vectors = Raise e
  end.
Proof.
  intros Hwf Hnd Hne Hsub.
  destruct (interpn_case4 RegularGridInterpolator self be fv vectors
              Hwf Hnd Hne Hsub) as (Hset & -> & _).
  rewrite interpn_case3 by done.
  destruct (_interpn _ _ _ _ _) as [i_data|e]; [|done].
  cbn [mbind result_bind].
  destruct (xr_DataArray i_data _ _) as [c3|e] eqn:Hc3; [|done].
  apply xr_DataArray_inv in Hc3 as ->.
  cbn [mbind result_bind data dims]. eexists. split; [done|].
  cbn [data dims shape tabulate]. split; [done|]. split; [done|].
  split; [done|].
  assert (Hitem : ∀ idx, in_bounds (length <$> vectors.*2) idx →
    item (tabulate (length <$> vectors.*2)
            (λ idx, item i_data
               (select_axes vectors.*1
                  (filter (λ c, c.1 ∈ dims (squeeze_drop self)) vectors).*1
                  idx))) idx
    = item i_data
        (select_axes vectors.*1
           (filter (λ c, c.1 ∈ dims (squeeze_drop self)) vectors).*1 idx)).
  { intros idx Hb. by rewrite item_tabulate. }
  split; [done|]. intros idx idx' Hb Hb' Hsel. by rewrite !Hitem, Hsel.
Qed.
End case4.

(** ** Elementwise sums of arrays of one shape *)

Section zip_facts.
Context {F : Type} `{Float F}.
Implicit Types (a b re im : ndarray F).

Lemma broadcast_shapes_same (s : list nat) : broadcast_shapes s s = Ok s.
Proof.
  unfold broadcast_shapes.
  pose proof (broadcast_rev_prefix (reverse s) []) as Hr.
  rewrite app_nil_r in Hr. by rewrite Hr, reverse_involutive.
Qed.

Lemma broadcast_index_same (s idx : list nat) :
  in_bounds s idx → broadcast_index s idx = idx.
Proof.
  intros Hb. destruct (broadcast_index_suffix s [] idx Hb) as [-> _]. done.
Qed.

Lemma item_lookup a idx z :
  buffer a !! ravel (shape a) idx = Some z → item a idx = z.
Proof. unfold item. by intros ->. Qed.

Lemma np_add_same_shape a b :
  wf_ndarray a → wf_ndarray b → shape a = shape b →
  np_add a b
  = Ok (NdArray (shape a) (zip_with scalar_add (buffer a) (buffer b))).
Proof.
  intros Ha Hb Hs. unfold np_add. rewrite <-Hs, broadcast_shapes_same.
  cbn [mbind result_bind]. f_equal.
  rewrite <-(tabulate_item (NdArray (shape a) _)).
  2:{ unfold wf_ndarray in *. cbn [shape buffer].
      rewrite length_zip_with. rewrite <-Hs in Hb. lia. }
  cbn [shape]. apply tabulate_ext. intros idx Hidx.
  rewrite !broadcast_index_same by done.
  pose proof (ravel_lt _ _ Hidx) as Hlt.
  destruct (lookup_lt_is_Some_2 (buffer a) (ravel (shape a) idx)) as [x Hx].
  { unfold wf_ndarray in Ha. lia. }
  destruct (lookup_lt_is_Some_2 (buffer b) (ravel (shape a) idx)) as [y Hy].
  { unfold wf_ndarray in Hb. rewrite <-Hs in Hb. lia. }
  rewrite (item_lookup a idx x) by done.
  rewrite (item_lookup b idx y) by (by rewrite <-Hs).
  symmetry. apply item_lookup. cbn [shape buffer].
  apply lookup_zip_with_Some. by exists x, y.
Qed.

Lemma wf_np_rmul c a : wf_ndarray a → wf_ndarray (np_rmul c a).
Proof. unfold wf_ndarray. simpl. by rewrite length_fmap. Qed.

(** [re + 1j * im] for two well-formed arrays of one shape. *)
Lemma np_add_rmul_zip re im :
  wf_ndarray re → wf_ndarray im → shape re = shape im →
  np_add re (np_rmul imag_unit im) = Ok (zip_complex re im).
Proof.
  intros Hre Him Hs. rewrite np_add_same_shape; [|done|by apply wf_np_rmul|done].
  unfold zip_complex. do 2 f_equal. cbn [np_rmul map_array buffer].
  by rewrite zip_with_fmap_r.
Qed.

Lemma wf_zip_complex re im :
  wf_ndarray re → wf_ndarray im → shape re = shape im →
  wf_ndarray (zip_complex re im).
Proof.
  unfold wf_ndarray. intros Hre Him Hs. cbn [zip_complex shape buffer].
  rewrite length_zip_with. rewrite <-Hs in Him. lia.
Qed.

Lemma item_zip_complex re im idx :
  wf_ndarray re → wf_ndarray im → shape re = shape im →
  in_bounds (shape re) idx →
  item (zip_complex re im) idx = scalar_recombine (item re idx) (item im idx).
Proof.
  intros Hre Him Hs Hidx. pose proof (ravel_lt _ _ Hidx) as Hlt.
  destruct (lookup_lt_is_Some_2 (buffer re) (ravel (shape re) idx)) as [x Hx].
  { unfold wf_ndarray in Hre. lia. }
  destruct (lookup_lt_is_Some_2 (buffer im) (ravel (shape re) idx)) as [y Hy].
  { unfold wf_ndarray in Him. rewrite <-Hs in Him. lia. }
  rewrite (item_lookup re idx x) by done.
  rewrite (item_lookup im idx y) by (by rewrite <-Hs).
  apply item_lookup. cbn [zip_complex shape buffer].
  apply lookup_zip_with_Some. by exists x, y.
Qed.

(** Reading two arrays through one index map and recombining is reading
    their recombination. *)
Lemma np_add_rmul_tabulate re im (s : list nat) (g : list nat → list nat) :
  wf_ndarray re → wf_ndarray im → shape re = shape im →
  (∀ idx, in_bounds s idx → in_bounds (shape re) (g idx)) →
  np_add (tabulate s (λ idx, item re (g idx)))
         (np_rmul imag_unit (tabulate s (λ idx, item im (g idx))))
  = Ok (tabulate s (λ idx, item (zip_complex re im) (g idx))).
Proof.
  intros Hre Him Hs Hg.
  rewrite np_add_rmul_zip; [|apply wf_tabulate..|done]. f_equal.
  rewrite <-(tabulate_item (zip_complex _ _)).
  2:{ apply wf_zip_complex; [apply wf_tabulate..|done]. }
  cbn [zip_complex shape tabulate]. apply tabulate_ext. intros idx Hidx.
  rewrite (item_zip_complex (tabulate s _) (tabulate s _));
    [|apply wf_tabulate..|done|done].
  rewrite !item_tabulate by done.
  symmetry. apply item_zip_complex; [done..|]. by apply Hg.
Qed.
End zip_facts.

(** ** The complex split *)

Section complex_facts.
Context {F : Type} `{Float F}.
Implicit Types (RegularGridInterpolator : grid_kernel_t F)
  (self da : DataArray F) (fv : pyvalue F)
  (vectors : list (string * list F)).

Lemma np_any_iscomplex_real (a : ndarray F) :
  np_any_iscomplex (np_real a) = false.
Proof.
  unfold np_any_iscomplex. cbn [np_real map_array buffer].
  induction (buffer a) as [|z l IH]; [done|].
  rewrite fmap_cons. cbn [existsb]. rewrite IH. by destruct z.
Qed.

Lemma np_any_iscomplex_imag (a : ndarray F) :
  np_any_iscomplex (np_imag a) = false.
Proof.
  unfold np_any_iscomplex. cbn [np_imag map_array buffer].
  induction (buffer a) as [|z l IH]; [done|].
  rewrite fmap_cons. cbn [existsb]. rewrite IH. by destruct z.
Qed.

Lemma squeeze_drop_real_part self :
  squeeze_drop (real_part self) = real_part (squeeze_drop self).
Proof. done. Qed.

Lemma squeeze_drop_imag_part self :
  squeeze_drop (imag_part self) = imag_part (squeeze_drop self).
Proof. done. Qed.

Lemma wf_real_part self : wf_DataArray self → wf_DataArray (real_part self).
Proof.
  intros (Hbuf & ?). split; [|done].
  unfold wf_ndarray in *. simpl. by rewrite length_fmap.
Qed.

Lemma wf_imag_part self : wf_DataArray self → wf_DataArray (imag_part self).
Proof.
  intros (Hbuf & ?). split; [|done].
  unfold wf_ndarray in *. simpl. by rewrite length_fmap.
Qed.

(** The constructor looks at the shape of the buffer only. *)
Lemma xr_DataArray_shape (d d' : ndarray F) cs ds :
  shape d = shape d' →
  xr_DataArray d' cs ds
  = (λ _, mkDataArray d' ds cs) <$> xr_DataArray d cs ds.
Proof.
  intros Hs. unfold xr_DataArray. rewrite Hs. case_decide; [|done].
  by destruct (mapM _ cs).
Qed.

(** [_interpn] on complex data, from [_interpn] on the two parts. *)
Lemma _interpn_split RegularGridInterpolator da be fv vectors :
  np_any_iscomplex (data da) = true →
  match _interpn RegularGridInterpolator (real_part da) be fv vectors,
        _interpn RegularGridInterpolator (imag_part da) be fv vectors with
  | Ok re, Ok im =>
      _interpn RegularGridInterpolator da be fv vectors
      = Ok (zip_complex re im)
      ∧ wf_ndarray re ∧ wf_ndarray im ∧ shape re = shape im
  | _, _ => ∀ d, _interpn RegularGridInterpolator da be fv vectors ≠ Ok d
  end.
Proof.
  intros Hc. unfold _interpn. rewrite Hc.
  cbn [real_part imag_part data dims coords].
  rewrite np_any_iscomplex_real, np_any_iscomplex_imag.
  destruct (mapM (dict_getitem vectors) (dims da)) as [pts|e]; [|done].
  cbn [mbind result_bind].
  destruct (RegularGridInterpolator _ (np_real (data da)) be fv)
    as [msg|f_real]; [done|].
  cbn [lib mbind result_bind].
  destruct (RegularGridInterpolator _ (np_imag (data da)) be fv)
    as [msg|f_imag]; cbn [lib mbind result_bind].
  { by repeat case_match. }
  destruct (decide (pts = [])); [done|].
  destruct (rgi_call_cases f_real (grid_points pts))
    as [[msg ->]|(v_re & -> & Hre)]; [done|].
  cbn [mbind result_bind].
  destruct (rgi_call_cases f_imag (grid_points pts))
    as [[msg ->]|(v_im & -> & Him)]; cbn [mbind result_bind].
  { by repeat case_match. }
  rewrite np_add_rmul_zip; [|unfold wf_ndarray; simpl; lia..|done].
  cbn [mbind result_bind]. unfold np_reshape. cbn [zip_complex shape buffer].
  case_decide as Hprod; [|done].
  split; [done|]. unfold wf_ndarray. simpl in *. split_and!; [lia..|done].
Qed.
End complex_facts.

Section complex_1d.
Context {F : Type} `{Float F}.
Implicit Types (scipy_interp1d : interp1d_kernel_t F)
  (self : DataArray F) (fv : pyvalue F) (vectors : list (string * list F)).

Lemma tuple_index_Ok_inv (t : list string) k i :
  tuple_index t k = Ok i → i = index_of k t.
Proof.
  unfold tuple_index, index_of.
  destruct (list_find (k =.) t) as [[j y]|]; [|done]. by intros [= ->].
Qed.

(** The 1-d path on complex data, when the repeat shortcut does not apply:
    it returns exactly when the call on the real parts and the call on the
    imaginary parts return, and then it returns [re + 1j * im]. *)
Lemma interp1d_complex_split scipy_interp1d self be fv ext rep vectors :
  np_any_iscomplex (data self) = true →
  interp1d_kernel_shaped scipy_interp1d →
  repeat_applies self rep vectors = false →
  ∀ out,
    interp1d scipy_interp1d self be fv ext rep vectors = Ok out
    ↔ (re ← interp1d scipy_interp1d (real_part self) be fv ext rep vectors;
       im ← interp1d scipy_interp1d (imag_part self) be fv ext rep vectors;
       recombine re im) = Ok out.
Proof.
  intros Hc Hshaped Hrep out. unfold interp1d.
  cbn [real_part imag_part data dims coords np_real np_imag map_array shape].
  destruct vectors as [|[k xi] vs]; [done|].
  cbn [fmap list_fmap fst snd py_getitem lookup list_lookup mbind result_bind].
  destruct (tuple_index (dims self) k) as [ax|e] eqn:Hax; [|done].
  apply tuple_index_Ok_inv in Hax as ->.
  cbn [mbind result_bind].
  destruct (dict_getitem (coords self) k) as [x|e]; [|done].
  cbn [mbind result_bind]. unfold py_getitem.
  destruct (shape (data self) !! index_of k (dims self)) as [extent|] eqn:Hext;
    [|done].
  cbn [mbind result_bind].
  assert (rep && bool_decide (extent = 1) = false) as ->.
  { simpl in Hrep. rewrite Hext in Hrep. destruct rep; [|done]. simpl in *.
    apply bool_decide_eq_false in Hrep. apply bool_decide_eq_false.
    intros ->. by apply Hrep. }
  rewrite Hc.
  change (NdArray (shape (data self)) (scalar_real <$> buffer (data self)))
    with (np_real (data self)).
  change (NdArray (shape (data self)) (scalar_imag <$> buffer (data self)))
    with (np_imag (data self)).
  rewrite np_any_iscomplex_real, np_any_iscomplex_imag.
  set (fv' := if negb (py_bool fv) then PyStr "extrapolate" else fv).
  unfold copy_deepcopy.
  set (nc := dict_setitem (coords self) k xi).
  destruct (scipy_interp1d x (np_real (data self)) _ be fv')
    as [msg|f_real] eqn:Hre; cbn [lib mbind result_bind]; [done|].
  destruct (scipy_interp1d x (np_imag (data self)) _ be fv')
    as [msg|f_imag] eqn:Him; cbn [lib mbind result_bind].
  { destruct (f_real xi); cbn [lib mbind result_bind]; [done|].
    by destruct (xr_DataArray _ _ _). }
  destruct (f_real xi) as [msg|re] eqn:Hfre; cbn [lib mbind result_bind];
    [done|].
  destruct (f_imag xi) as [msg|im] eqn:Hfim; cbn [lib mbind result_bind].
  { by destruct (xr_DataArray _ _ _). }
  pose proof (Hshaped _ _ _ _ _ _ _ _ Hre Hfre) as Hsre.
  pose proof (Hshaped _ _ _ _ _ _ _ _ Him Hfim) as Hsim.
  cbn [np_real np_imag map_array shape] in Hsre, Hsim.
  destruct (np_add re (np_rmul imag_unit im)) as [yi|e] eqn:Hyi.
  2:{ exfalso. revert Hyi. unfold np_add. cbn [np_rmul map_array shape].
      by rewrite Hsre, Hsim, broadcast_shapes_same. }
  assert (Hsyi : shape yi = shape re).
  { revert Hyi. unfold np_add. cbn [np_rmul map_array shape].
    rewrite Hsim, <-Hsre, broadcast_shapes_same. by intros [= <-]. }
  cbn [mbind result_bind].
  rewrite (xr_DataArray_shape yi re) by done.
  rewrite (xr_DataArray_shape yi im) by congruence.
  destruct (xr_DataArray yi nc (dims self)) as [o|e] eqn:Ho; [|done].
  apply xr_DataArray_inv in Ho as ->.
  cbn [fmap result_fmap mbind result_bind]. unfold recombine.
  cbn [data dims coords]. by rewrite Hyi.
Qed.
End complex_1d.

Section complex_nd.
Context {F : Type} `{Float F}.
Implicit Types (RegularGridInterpolator : grid_kernel_t F)
  (self : DataArray F) (fv : pyvalue F) (vectors : list (string * list F)).

(** Outside cases 2, 3 and 4-with-extension [interpn] raises, and what it
    raises depends on the axis names only. *)
Lemma interpn_raises RegularGridInterpolator self be fv ext vectors :
  dims (squeeze_drop self) ≠ [] →
  py_set vectors.*1 ≠ py_set (dims (squeeze_drop self)) →
  ¬ (py_set (dims (squeeze_drop self)) ⊂ py_set vectors.*1 ∧ ext = true) →
  ∃ e, interpn RegularGridInterpolator self be fv ext vectors = Raise e.
Proof.
  intros Hne Hneq Hsup. unfold interpn.
  rewrite decide_False by done. rewrite decide_False by done.
  case_decide as Hs.
  - destruct ext; [by destruct Hsup|]. by eexists.
  - case_decide; [destruct ext|]; by eexists.
Qed.

(** The N-d path on complex data, when the array has an axis left to
    interpolate on: it returns exactly when the call on the real parts and
    the call on the imaginary parts return, and then it returns
    [re + 1j * im]. *)
Lemma interpn_complex_split RegularGridInterpolator self be fv ext vectors :
  np_any_iscomplex (data self) = true →
  wf_DataArray self →
  NoDup vectors.*1 →
  dims (squeeze_drop self) ≠ [] →
  ∀ out,
    interpn RegularGridInterpolator self be fv ext vectors = Ok out
    ↔ (re ← interpn RegularGridInterpolator (real_part self) be fv ext
                    vectors;
       im ← interpn RegularGridInterpolator (imag_part self) be fv ext
                    vectors;
       recombine re im) = Ok out.
Proof.
  intros Hc Hwf Hnd Hne out.
  pose proof (wf_real_part _ Hwf) as Hwfr.
  pose proof (wf_imag_part _ Hwf) as Hwfi.
  assert (Hc' : np_any_iscomplex (data (squeeze_drop self)) = true) by done.
  destruct (decide (py_set vectors.*1 = py_set (dims (squeeze_drop self))))
    as [Heq|Hneq].
  { (* case 3 *)
    rewrite !interpn_case3 by done.
    rewrite squeeze_drop_real_part, squeeze_drop_imag_part.
    pose proof (_interpn_split RegularGridInterpolator (squeeze_drop self)
                  be fv vectors Hc') as Hsp.
    destruct (_interpn _ (real_part _) _ _ _) as [re|e1];
      destruct (_interpn _ (imag_part _) _ _ _) as [im|e2];
      cbn [mbind result_bind].
    - destruct Hsp as (-> & Hwre & Hwim & Hs). cbn [mbind result_bind].
      rewrite (xr_DataArray_shape (zip_complex re im) re) by done.
      rewrite (xr_DataArray_shape (zip_complex re im) im) by done.
      destruct (xr_DataArray (zip_complex re im) _ _) as [o|e] eqn:Ho;
        [|done].
      apply xr_DataArray_inv in Ho as ->.
      cbn [fmap result_fmap mbind result_bind]. unfold recombine.
      cbn [data dims coords]. by rewrite np_add_rmul_zip.
    - split; [by intros (d & ?%Hsp & _)%bind_Ok_inv|].
      by destruct (xr_DataArray re _ _).
    - split; [by intros (d & ?%Hsp & _)%bind_Ok_inv|done].
    - split; [by intros (d & ?%Hsp & _)%bind_Ok_inv|done]. }
  destruct (decide (py_set (dims (squeeze_drop self)) ⊂ py_set vectors.*1
                    ∧ ext = true)) as [[Hsup ->]|Hnsup].
  { (* case 4 *)
    destruct (interpn_case4 RegularGridInterpolator self be fv vectors
                Hwf Hnd Hne Hsup) as (_ & -> & _).
    destruct (interpn_case4 RegularGridInterpolator (real_part self) be fv
                vectors Hwfr Hnd Hne Hsup) as (_ & -> & Hinr).
    destruct (interpn_case4 RegularGridInterpolator (imag_part self) be fv
                vectors Hwfi Hnd Hne Hsup) as (_ & -> & _).
    rewrite squeeze_drop_real_part, squeeze_drop_imag_part in *.
    cbn [real_part imag_part dims] in *.
    set (iv := filter (λ c, c.1 ∈ dims (squeeze_drop self)) vectors) in *.
    set (ev := filter (λ c, c.1 ∉ dims (squeeze_drop self)) vectors) in *.
    pose proof (_interpn_split RegularGridInterpolator (squeeze_drop self)
                  be fv iv Hc') as Hsp.
    change (mkDataArray (np_real (data (squeeze_drop self)))
              (dims (squeeze_drop self)) (coords (squeeze_drop self)))
      with (real_part (squeeze_drop self)) in *.
    change (mkDataArray (np_imag (data (squeeze_drop self)))
              (dims (squeeze_drop self)) (coords (squeeze_drop self)))
      with (imag_part (squeeze_drop self)) in *.
    destruct (_interpn _ (real_part _) _ _ _) as [re|e1] eqn:Hre;
      destruct (_interpn _ (imag_part _) _ _ _) as [im|e2] eqn:Him;
      cbn [mbind result_bind].
    - destruct Hsp as (-> & Hwre & Hwim & Hs). cbn [mbind result_bind].
      rewrite (xr_DataArray_shape (zip_complex re im) re) by done.
      rewrite (xr_DataArray_shape (zip_complex re im) im) by done.
      destruct (xr_DataArray (zip_complex re im) _ _) as [o|e] eqn:Ho;
        [|done].
      cbn [fmap result_fmap mbind result_bind]. unfold recombine.
      cbn [data dims coords].
      rewrite np_add_rmul_tabulate; [done..|].
      eapply (Hinr re); [done|].
      rewrite (xr_DataArray_shape (zip_complex re im) re), Ho by done.
      done.
    - split; [by intros (d & ?%Hsp & _)%bind_Ok_inv|].
      by destruct (xr_DataArray re _ _).
    - split; [by intros (d & ?%Hsp & _)%bind_Ok_inv|done].
    - split; [by intros (d & ?%Hsp & _)%bind_Ok_inv|done]. }
  (* every other case raises *)
  destruct (interpn_raises RegularGridInterpolator self be fv ext vectors)
    as [e ->]; [done..|].
  destruct (interpn_raises RegularGridInterpolator (real_part self) be fv ext
              vectors) as [e' ->]; [done..|].
  done.
Qed.
End complex_nd.

Section complex_split.
Context {F : Type} `{Float F}.
Implicit Types (scipy_interp1d : interp1d_kernel_t F)
  (RegularGridInterpolator : grid_kernel_t F)
  (self : DataArray F) (fv : pyvalue F) (vectors : list (string * list F)).

(** C4, amended.  For data with a non-zero imaginary part somewhere (the
    program's own test), and on the requests for which an interpolation
    takes place (in the 1-d path: the repeat shortcut does not apply, and
    the interpolant returns arrays of its documented shape; in the N-d
    path: the array is well formed, the keys are distinct and an axis is
    left after squeezing), the call returns exactly when the call on the
    real parts and the call on the imaginary parts, under the same
    [bounds_error] and [fill_value], both return, and its result is then
    [re + 1j * im] element by element, under the same labels.  On the
    other requests the data are copied, not interpolated, and they are not
    [re + 1j * im] when an imaginary part is not finite (see
    [Extended.array_W]). *)
Theorem complex_split scipy_interp1d RegularGridInterpolator self be fv ext
    rep vectors :
  np_any_iscomplex (data self) = true →
  (interp1d_kernel_shaped scipy_interp1d →
   repeat_applies self rep vectors = false →
   ∀ out,
     interp1d scipy_interp1d self be fv ext rep vectors = Ok out
     ↔ (re ← interp1d scipy_interp1d (real_part self) be fv ext rep vectors;
        im ← interp1d scipy_interp1d (imag_part self) be fv ext rep vectors;
        recombine re im) = Ok out)
  ∧ (wf_DataArray self →
     NoDup vectors.*1 →
     dims (squeeze_drop self) ≠ [] →
     ∀ out,
       interpn RegularGridInterpolator self be fv ext vectors = Ok out
       ↔ (re ← interpn RegularGridInterpolator (real_part self) be fv ext
                       vectors;
          im ← interpn RegularGridInterpolator (imag_part self) be fv ext
                       vectors;
          recombine re im) = Ok out).
Proof.
  intros Hc. split.
  - intros Hshaped Hrep. by apply interp1d_complex_split.
  - intros Hwf Hnd Hne. by apply interpn_complex_split.
Qed.
End complex_split.

(** ** The theorems at the scenarios *)

Section witnesses.
Import Exact Scenario.

Lemma linear_kernel_shaped : interp1d_kernel_shaped linear_kernel.
Proof.
  intros x y axis be fv f xi out. unfold linear_kernel.
  case_decide; [|done]. intros [= <-].
  destruct (be && existsb (outside x) xi); [done|]. by intros [= <-].
Qed.

Lemma wf_array_B : wf_DataArray array_B.
Proof. by_evaluation. Qed.

Lemma wf_array_C : wf_DataArray array_C.
Proof. by_evaluation. Qed.

Lemma wf_array_D : wf_DataArray array_D.
Proof. by_evaluation. Qed.

Lemma wf_array_Z : wf_DataArray array_Z.
Proof. by_evaluation. Qed.

Lemma interpn_scalar_broadcast_witness :
  wf_DataArray array_C
  ∧ NoDup [("y", points [10; 20; 30]%Z); ("x", points [0; 1]%Z)].*1
  ∧ dims (squeeze_drop array_C) = []
  ∧ ∃ z out,
      buffer (data array_C) = [z]
      ∧ (∀ RegularGridInterpolator,
           interpn RegularGridInterpolator array_C false PyNone false
             [("y", points [10; 20; 30]%Z); ("x", points [0; 1]%Z)] = Ok out)
      ∧ dims out = ["y"; "x"]
      ∧ coords out = [("y", points [10; 20; 30]%Z); ("x", points [0; 1]%Z)]
      ∧ shape (data out) = [3; 2]
      ∧ ∀ idx, in_bounds (shape (data out)) idx → item (data out) idx = z.
Proof.
  assert (Hnd : NoDup [("y", points [10; 20; 30]%Z);
                       ("x", points [0; 1]%Z)].*1) by by_evaluation.
  split; [exact wf_array_C|]. split; [exact Hnd|]. split; [reflexivity|].
  exact (interpn_scalar_broadcast array_C false PyNone false
           [("y", points [10; 20; 30]%Z); ("x", points [0; 1]%Z)]
           wf_array_C Hnd eq_refl).
Defined.

Lemma interpn_extend_dims_witness :
  wf_DataArray array_D
  ∧ NoDup [("y", points [10; 20; 30]%Z); ("x", points [0; 1]%Z)].*1
  ∧ dims (squeeze_drop array_D) ≠ []
  ∧ py_set (dims (squeeze_drop array_D))
      ⊂ py_set [("y", points [10; 20; 30]%Z); ("x", points [0; 1]%Z)].*1
  ∧ match interpn grid_kernel array_D false PyNone true
            (filter (λ c, c.1 ∈ dims (squeeze_drop array_D))
               [("y", points [10; 20; 30]%Z); ("x", points [0; 1]%Z)]) with
    | Ok c3 =>
        ∃ out,
          interpn grid_kernel array_D false PyNone true
            [("y", points [10; 20; 30]%Z); ("x", points [0; 1]%Z)] = Ok out
          ∧ dims out
            = [("y", points [10; 20; 30]%Z); ("x", points [0; 1]%Z)].*1
          ∧ shape (data out)
            = length
                <$> [("y", points [10; 20; 30]%Z); ("x", points [0; 1]%Z)].*2
          ∧ dims c3
            = (filter (λ c, c.1 ∈ dims (squeeze_drop array_D))
                 [("y", points [10; 20; 30]%Z); ("x", points [0; 1]%Z)]).*1
          ∧ (∀ idx, in_bounds (shape (data out)) idx →
               item (data out) idx
               = item (data c3)
                   (select_axes
                      [("y", points [10; 20; 30]%Z);
                       ("x", points [0; 1]%Z)].*1 (dims c3) idx))
          ∧ (∀ idx idx',
               in_bounds (shape (data out)) idx →
               in_bounds (shape (data out)) idx' →
               select_axes
                 [("y", points [10; 20; 30]%Z); ("x", points [0; 1]%Z)].*1
                 (dims c3) idx
               = select_axes
                   [("y", points [10; 20; 30]%Z); ("x", points [0; 1]%Z)].*1
                   (dims c3) idx' →
               item (data out) idx = item (data out) idx')
    | Raise e =>
        interpn grid_kernel array_D false PyNone true
          [("y", points [10; 20; 30]%Z); ("x", points [0; 1]%Z)] = Raise e
    end.
Proof.
  assert (Hnd : NoDup [("y", points [10; 20; 30]%Z);
                       ("x", points [0; 1]%Z)].*1) by by_evaluation.
  assert (Hne : dims (squeeze_drop array_D) ≠ []) by by_evaluation.
  assert (Hsub : py_set (dims (squeeze_drop array_D))
                   ⊂ py_set [("y", points [10; 20; 30]%Z);
                             ("x", points [0; 1]%Z)].*1) by by_evaluation.
  split; [exact wf_array_D|]. split; [exact Hnd|]. split; [exact Hne|].
  split; [exact Hsub|].
  exact (interpn_extend_dims grid_kernel array_D false PyNone
           [("y", points [10; 20; 30]%Z); ("x", points [0; 1]%Z)]
           wf_array_D Hnd Hne Hsub).
Defined.

(** Scenario D, with the request in the order [(y, x)]: three equal slices
    along [y], each the interpolation over [x] alone. *)
Example scenario_D :
  interpn grid_kernel array_D false PyNone true
          [("y", points [10; 20; 30]%Z); ("x", points [0; 1]%Z)]
  = Ok (mkDataArray (NdArray [3; 2] (real <$> [7; 9; 7; 9; 7; 9]%Z))
                    ["y"; "x"]
                    [("y", points [10; 20; 30]%Z); ("x", points [0; 1]%Z)])
  ∧ data <$> interpn grid_kernel array_D false PyNone true
                     [("x", points [0; 1]%Z)]
    = Ok (NdArray [2] (real <$> [7; 9]%Z)).
Proof. split; vm_compute; reflexivity. Qed.

Lemma complex_split_witness :
  np_any_iscomplex (data array_Z) = true
  ∧ interp1d_kernel_shaped linear_kernel
  ∧ repeat_applies array_Z true [("t", [1 # 2; 3 # 2]%Q)] = false
  ∧ wf_DataArray array_Z
  ∧ NoDup [("t", [1 # 2; 3 # 2]%Q)].*1
  ∧ dims (squeeze_drop array_Z) ≠ []
  ∧ (∀ out,
       interp1d linear_kernel array_Z false PyNone true true
                [("t", [1 # 2; 3 # 2]%Q)] = Ok out
       ↔ (re ← interp1d linear_kernel (real_part array_Z) false PyNone true
                        true [("t", [1 # 2; 3 # 2]%Q)];
          im ← interp1d linear_kernel (imag_part array_Z) false PyNone true
                        true [("t", [1 # 2; 3 # 2]%Q)];
          recombine re im) = Ok out)
  ∧ (∀ out,
       interpn grid_kernel array_Z false PyNone true
               [("t", [1 # 2; 3 # 2]%Q)] = Ok out
       ↔ (re ← interpn grid_kernel (real_part array_Z) false PyNone true
                       [("t", [1 # 2; 3 # 2]%Q)];
          im ← interpn grid_kernel (imag_part array_Z) false PyNone true
                       [("t", [1 # 2; 3 # 2]%Q)];
          recombine re im) = Ok out).
Proof.
  assert (Hnd : NoDup [("t", [1 # 2; 3 # 2]%Q)].*1) by by_evaluation.
  assert (Hne : dims (squeeze_drop array_Z) ≠ []).
  { intros Hd. vm_compute in Hd. discriminate Hd. }
  split; [reflexivity|]. split; [exact linear_kernel_shaped|].
  split; [reflexivity|]. split; [exact wf_array_Z|].
  split; [exact Hnd|]. split; [exact Hne|].
  split.
  - exact (proj1 (complex_split linear_kernel grid_kernel array_Z false
                    PyNone true true [("t", [1 # 2; 3 # 2]%Q)] eq_refl)
                 linear_kernel_shaped eq_refl).
  - exact (proj2 (complex_split linear_kernel grid_kernel array_Z false
                    PyNone true true [("t", [1 # 2; 3 # 2]%Q)] eq_refl)
                 wf_array_Z Hnd Hne).
Defined.

(** The complex scenario, computed: the two paths agree with each other
    and with the recombination of the two parts. *)
Example complex_scenario :
  data <$> interp1d linear_kernel array_Z false PyNone true true
                    [("t", [1 # 2; 3 # 2]%Q)]
  = Ok (NdArray [2] [SComplex 2 3; SComplex 4 6]%Q)
  ∧ data <$> interpn grid_kernel array_Z false PyNone true
                     [("t", [1 # 2; 3 # 2]%Q)]
    = Ok (NdArray [2] [SComplex 2 3; SComplex 4 6]%Q)
  ∧ data <$> interp1d linear_kernel (real_part array_Z) false PyNone true
                      true [("t", [1 # 2; 3 # 2]%Q)]
    = Ok (NdArray [2] [SReal 2; SReal 4]%Q)
  ∧ data <$> interp1d linear_kernel (imag_part array_Z) false PyNone true
                      true [("t", [1 # 2; 3 # 2]%Q)]
    = Ok (NdArray [2] [SReal 3; SReal 6]%Q).
Proof. repeat split; vm_compute; reflexivity. Qed.
End witnesses.

(** ** The paths that copy the data *)

Section copied_data.
Import Extended.

(** C4, as stated, fails where nothing is interpolated.  The array
    [1 + inf j] on one axis of extent 1: the repeat shortcut of [interp1d]
    and case 2 of [interpn] return copies of [1 + inf j] without a call
    of the kernel, while the calls on the two parts give [1] and [inf],
    and [1 + 1j * inf] is [nan + inf j], the product [0 * inf] being
    NaN. *)
Lemma complex_split_fails_on_copied_data :
  np_any_iscomplex (data array_W) = true
  ∧ interp1d no_interp1d array_W false PyNone true true
             [("x", [Finite 0; Finite 1])]
    = Ok (mkDataArray
            (NdArray [2] (replicate 2 (SComplex (Finite 1) PosInf)))
            ["x"] [("x", [Finite 0; Finite 1])])
  ∧ (re ← interp1d no_interp1d (real_part array_W) false PyNone true true
                   [("x", [Finite 0; Finite 1])];
     im ← interp1d no_interp1d (imag_part array_W) false PyNone true true
                   [("x", [Finite 0; Finite 1])];
     recombine re im)
    = Ok (mkDataArray (NdArray [2] (replicate 2 (SComplex NaN PosInf)))
                      ["x"] [("x", [Finite 0; Finite 1])])
  ∧ interpn no_grid array_W false PyNone true [("y", [Finite 0; Finite 1])]
    = Ok (mkDataArray
            (NdArray [2] (replicate 2 (SComplex (Finite 1) PosInf)))
            ["y"] [("y", [Finite 0; Finite 1])])
  ∧ (re ← interpn no_grid (real_part array_W) false PyNone true
                  [("y", [Finite 0; Finite 1])];
     im ← interpn no_grid (imag_part array_W) false PyNone true
                  [("y", [Finite 0; Finite 1])];
     recombine re im)
    = Ok (mkDataArray (NdArray [2] (replicate 2 (SComplex NaN PosInf)))
                      ["y"] [("y", [Finite 0; Finite 1])]).
Proof. repeat split; vm_compute; reflexivity. Qed.
End copied_data.

(** ** Mutation and sharing, over the store *)

Section store_facts.
Context {F : Type} `{Float F}.
Implicit Types (h : gmap loc (@cell F)).

Lemma preserves_ret {A} (h0 : gmap loc (@cell F)) (a : A) (Q : A → Prop) :
  Q a → preserves h0 (mret a) Q.
Proof. intros HQ h Hh. split; [done|]. by intros ? [= <-]. Qed.

Lemma preserves_bind {A B} (h0 : gmap loc (@cell F)) (m : M A) (f : A → M B) Q1 Q2 :
  preserves h0 m Q1 → (∀ a, Q1 a → preserves h0 (f a) Q2) →
  preserves h0 (m ≫= f) Q2.
Proof.
  intros Hm Hf h Hh. destruct (Hm h Hh) as [Hsub HQ].
  unfold mbind, M_bind. destruct (m h) as [[a|e] h'] eqn:Hmh; simpl in *.
  - by apply Hf; [apply HQ|].
  - done.
Qed.

Lemma preserves_conseq {A} (h0 : gmap loc (@cell F)) (m : M A) (Q Q' : A → Prop) :
  preserves h0 m Q → (∀ a, Q a → Q' a) → preserves h0 m Q'.
Proof.
  intros Hm HQ h Hh. destruct (Hm h Hh) as [? HQa]. split; [done|].
  intros a Ha. by apply HQ, HQa.
Qed.

Lemma preserves_lift {A} (h0 : gmap loc (@cell F)) (r : result A) (Q : A → Prop) :
  (∀ a, r = Ok a → Q a) → preserves h0 (lift r) Q.
Proof. intros HQ h Hh. by split. Qed.

Lemma preserves_alloc (h0 : gmap loc (@cell F)) (c : cell) :
  preserves h0 (alloc c) (λ l, l ∉ dom h0).
Proof.
  intros h Hh. unfold alloc. simpl.
  assert (Hf : fresh (dom h) ∉ dom h) by apply is_fresh.
  split.
  - etrans; [exact Hh|]. apply insert_subseteq. by apply not_elem_of_dom.
  - intros l [= <-]. intros Hl. apply Hf. by eapply subseteq_dom.
Qed.

Lemma preserves_store_cell (h0 : gmap loc (@cell F)) (l : loc) (c : cell) :
  l ∉ dom h0 → preserves h0 (store_cell l c) (λ _, True).
Proof.
  intros Hl h Hh. unfold store_cell. simpl. split; [|done].
  apply map_subseteq_spec. intros l' x Hx.
  rewrite lookup_insert_ne.
  - by eapply lookup_weaken.
  - intros <-. apply Hl. by apply elem_of_dom.
Qed.

Lemma preserves_new_array (h0 : gmap loc (@cell F)) (a : ndarray F) :
  preserves h0 (new_array a) (fresh_array h0).
Proof.
  unfold new_array. eapply preserves_bind; [apply preserves_alloc|].
  intros l Hl. by apply preserves_ret.
Qed.

Lemma preserves_new_coords_obj (h0 : gmap loc (@cell F)) (m : list (string * list F)) :
  preserves h0 (new_coords_obj m) (fresh_coords h0).
Proof.
  unfold new_coords_obj. eapply preserves_bind; [apply preserves_alloc|].
  intros l Hl. by apply preserves_ret.
Qed.

Lemma preserves_call_obj (h0 : gmap loc (@cell F)) (r : result (ndarray F)) :
  preserves h0 (call_obj r) (fresh_array h0).
Proof.
  unfold call_obj. eapply preserves_bind; [by apply (preserves_lift _ _ (λ _, True))|].
  intros a _. apply preserves_new_array.
Qed.

Lemma preserves_coords_setitem (h0 : gmap loc (@cell F)) (c : coords_obj) k (v : list F) :
  fresh_coords h0 c → preserves h0 (coords_setitem c k v) (fresh_coords h0).
Proof.
  intros Hc. unfold coords_setitem.
  eapply preserves_bind; [by apply preserves_store_cell|].
  intros _ _. by apply preserves_ret.
Qed.

Lemma preserves_deepcopy_xr_obj (h0 : gmap loc (@cell F)) (o : xr_obj) :
  preserves h0 (deepcopy_xr_obj o) (fresh_xr h0).
Proof.
  unfold deepcopy_xr_obj.
  eapply preserves_bind; [apply preserves_new_array|]. intros d Hd.
  eapply preserves_bind; [apply preserves_new_coords_obj|]. intros c Hc.
  by apply preserves_ret.
Qed.

Lemma preserves_xr_DataArray_obj (h0 : gmap loc (@cell F)) (d : array_obj) cs ds :
  fresh_array h0 d → preserves h0 (xr_DataArray_obj d cs ds) (fresh_xr h0).
Proof.
  intros Hd. unfold xr_DataArray_obj.
  eapply preserves_bind; [by apply (preserves_lift _ _ (λ _, True))|]. intros _ _.
  eapply preserves_bind; [apply preserves_new_coords_obj|]. intros c Hc.
  by apply preserves_ret.
Qed.

Lemma preserves_xr_transpose_obj (h0 : gmap loc (@cell F)) (o : xr_obj) names :
  fresh_array h0 (xdata o) →
  preserves h0 (xr_transpose_obj o names) (fresh_xr h0).
Proof.
  intros Hd. unfold xr_transpose_obj.
  eapply preserves_bind; [by apply (preserves_lift _ _ (λ _, True))|]. intros v _.
  eapply preserves_bind; [apply preserves_new_coords_obj|]. intros c Hc.
  by apply preserves_ret.
Qed.

Lemma preserves_squeeze_drop_obj (h0 : gmap loc (@cell F)) (o : xr_obj) :
  preserves h0 (squeeze_drop_obj o) (λ _, True).
Proof.
  unfold squeeze_drop_obj.
  eapply preserves_bind; [apply preserves_new_coords_obj|]. intros c Hc.
  by apply preserves_ret.
Qed.
End store_facts.

(** One step of a call: a pure check, or an allocation. *)
Ltac preserves_pure :=
  eapply preserves_bind;
  [by apply (preserves_lift _ _ (λ _, True))|intros ? _].

Ltac preserves_new :=
  eapply preserves_bind;
  [first [apply preserves_call_obj | apply preserves_new_array
         | apply preserves_deepcopy_xr_obj | apply preserves_new_coords_obj]
  |intros ? ?].

Section store_program.
Context {F : Type} `{Float F}.
Implicit Types (scipy_interp1d : interp1d_kernel_t F)
  (RegularGridInterpolator : grid_kernel_t F)
  (self da : @xr_obj F) (fv : pyvalue F) (vectors : list (string * list F)).

Lemma preserves_interp1d_obj (h0 : gmap loc (@cell F)) scipy_interp1d self be
    fv ext rep vectors :
  preserves h0 (interp1d_obj scipy_interp1d self be fv ext rep vectors)
            (fresh_xr h0).
Proof.
  unfold interp1d_obj. do 5 preserves_pure.
  eapply (preserves_bind _ _ _ (fresh_array h0)).
  { destruct (_ && _); [apply preserves_new_array|].
    destruct (np_any_iscomplex _).
    - do 2 preserves_pure. do 3 preserves_new. apply preserves_call_obj.
    - preserves_pure. apply preserves_call_obj. }
  intros yi Hyi.
  eapply preserves_bind; [apply preserves_new_coords_obj|]. intros c Hc.
  eapply preserves_bind; [by apply preserves_coords_setitem|]. intros c' Hc'.
  by apply preserves_xr_DataArray_obj.
Qed.

Lemma preserves__interpn_obj (h0 : gmap loc (@cell F)) RegularGridInterpolator
    da be fv vectors :
  preserves h0 (_interpn_obj RegularGridInterpolator da be fv vectors)
            (fresh_array h0).
Proof.
  unfold _interpn_obj. preserves_pure.
  destruct (np_any_iscomplex _).
  - do 2 preserves_pure. case_decide; [by apply preserves_lift|].
    do 4 preserves_new. preserves_pure. by apply preserves_ret.
  - preserves_pure. case_decide; [by apply preserves_lift|].
    preserves_new. preserves_pure. by apply preserves_ret.
Qed.

Lemma preserves_interpn_obj (h0 : gmap loc (@cell F)) RegularGridInterpolator
    self be fv ext vectors :
  preserves h0 (interpn_obj RegularGridInterpolator self be fv ext vectors)
            (fresh_xr h0).
Proof.
  unfold interpn_obj.
  eapply preserves_bind; [apply preserves_squeeze_drop_obj|]. intros da _.
  repeat case_decide.
  - eapply preserves_bind; [apply preserves_new_array|]. intros d Hd.
    preserves_pure.
    eapply preserves_bind; [by apply preserves_xr_DataArray_obj|].
    intros o [Ho _]. by apply preserves_xr_transpose_obj.
  - preserves_new.
    eapply preserves_bind; [apply preserves__interpn_obj|]. intros i Hi.
    by apply preserves_xr_DataArray_obj.
  - destruct ext; [|by apply preserves_lift].
    preserves_new.
    eapply preserves_bind; [apply preserves__interpn_obj|]. intros i Hi.
    preserves_pure.
    eapply preserves_bind; [by apply preserves_xr_DataArray_obj|].
    intros o [Ho _]. by apply preserves_xr_transpose_obj.
  - destruct ext; [|by apply preserves_lift].
    preserves_new. by apply preserves_lift.
  - by apply preserves_lift.
Qed.

Lemma preserves_smart_obj (h0 : gmap loc (@cell F)) scipy_interp1d
    RegularGridInterpolator self be fv rep ext vectors :
  preserves h0
    (smart_obj scipy_interp1d RegularGridInterpolator self be fv rep ext
               vectors)
    (fresh_xr h0).
Proof.
  unfold smart_obj. case_decide.
  - apply preserves_interp1d_obj.
  - apply preserves_interpn_obj.
Qed.
End store_program.

(** ** The program over the store computes what the program on values does *)

Section simulation.
Context {F : Type} `{Float F}.
Implicit Types (scipy_interp1d : interp1d_kernel_t F)
  (RegularGridInterpolator : grid_kernel_t F)
  (self da : @xr_obj F) (fv : pyvalue F) (vectors : list (string * list F)).

Lemma simulates_ret {A B} (a : A) (b : B) (R : A → B → Prop) :
  R a b → simulates (F := F) (mret a) (Ok b) R.
Proof. by intros HR h. Qed.

Lemma simulates_lift {A} (r : result A) : simulates (F := F) (lift r) r eq.
Proof. intros h. simpl. by destruct r. Qed.

Lemma simulates_raise {A B} e (R : A → B → Prop) :
  simulates (F := F) (lift (Raise e)) (Raise e) R.
Proof. by intros h. Qed.

Lemma simulates_bind {A B A' B'} (m : M A) (r : result B) (f : A → M A')
    (g : B → result B') R R' :
  simulates (F := F) m r R → (∀ a b, R a b → simulates (f a) (g b) R') →
  simulates (m ≫= f) (r ≫= g) R'.
Proof.
  intros Hm Hf h. specialize (Hm h). unfold mbind at 1, M_bind.
  destruct (m h) as [[a|e] h'], r as [b|e']; simpl in *; try done.
  by apply Hf.
Qed.

(** A step of the call that has no counterpart on values but a copy. *)
Lemma simulates_bind_Ok {A B A' B'} (m : M A) (b : B) (f : A → M A')
    (r : result B') R R' :
  simulates (F := F) m (Ok b) R → (∀ a, R a b → simulates (f a) r R') →
  simulates (m ≫= f) r R'.
Proof.
  intros Hm Hf h. specialize (Hm h). unfold mbind, M_bind.
  destruct (m h) as [[a|e] h']; simpl in *; [|done].
  by apply Hf.
Qed.

Lemma simulates_new_array (a : ndarray F) :
  simulates (new_array a) (Ok a) (λ o v, val o = v).
Proof. by intros h. Qed.

Lemma simulates_call_obj (r : result (ndarray F)) :
  simulates (call_obj r) r (λ o v, val o = v).
Proof. intros h. unfold call_obj, mbind, M_bind. simpl. by destruct r. Qed.

Lemma simulates_new_coords_obj (m : list (string * list F)) :
  simulates (new_coords_obj m) (Ok m) (λ c v, cval c = v).
Proof. by intros h. Qed.

Lemma simulates_coords_setitem (c : coords_obj) k (v : list F) :
  simulates (coords_setitem c k v) (Ok (dict_setitem (cval c) k v))
            (λ c' m, cval c' = m).
Proof. by intros h. Qed.

Lemma simulates_deepcopy_xr_obj (o : @xr_obj F) :
  simulates (deepcopy_xr_obj o) (Ok (value_of o))
            (λ o' v, value_of (F := F) o' = v).
Proof. by intros h. Qed.

Lemma simulates_xr_DataArray_obj (d : array_obj) cs (ds : list string) :
  simulates (xr_DataArray_obj d cs ds) (xr_DataArray (val d) cs ds)
            (λ o v, value_of (F := F) o = v).
Proof.
  intros h. unfold xr_DataArray_obj, mbind, M_bind, lift. simpl.
  destruct (xr_DataArray (val d) cs ds) as [out|e] eqn:Ho; simpl; [|done].
  by apply xr_DataArray_inv in Ho as ->.
Qed.

Lemma simulates_squeeze_drop_obj (o : @xr_obj F) :
  simulates (squeeze_drop_obj o) (Ok (squeeze_drop (value_of o)))
            (λ o' v, value_of (F := F) o' = v).
Proof.
  intros h. unfold squeeze_drop_obj, value_of. simpl. done.
Qed.

Lemma simulates_xr_transpose_obj (o : @xr_obj F) names :
  simulates (xr_transpose_obj o names) (xr_transpose (value_of o) names)
            (λ o' v, value_of (F := F) o' = v).
Proof.
  intros h. unfold xr_transpose_obj, mbind, M_bind, lift. simpl.
  destruct (xr_transpose (value_of o) names) as [v|e]; simpl; [|done].
  by destruct v.
Qed.
End simulation.

(** One step of both computations: the same check, or the same array. *)
Ltac simulates_pure :=
  eapply simulates_bind; [apply simulates_lift|intros ? ? <-].

Ltac simulates_new :=
  eapply simulates_bind; [apply simulates_call_obj|intros ? ? <-].

Section simulation_program.
Context {F : Type} `{Float F}.
Implicit Types (scipy_interp1d : interp1d_kernel_t F)
  (RegularGridInterpolator : grid_kernel_t F)
  (self da : @xr_obj F) (fv : pyvalue F) (vectors : list (string * list F)).

Lemma simulates_interp1d_obj scipy_interp1d self be fv ext rep vectors :
  simulates (interp1d_obj scipy_interp1d self be fv ext rep vectors)
            (interp1d scipy_interp1d (value_of self) be fv ext rep vectors)
            (λ o v, value_of o = v).
Proof.
  unfold interp1d_obj, interp1d, copy_deepcopy. cbn [value_of data dims coords].
  do 5 simulates_pure.
  eapply (simulates_bind _ _ _ _ (λ o v, val o = v)).
  { destruct (_ && _); [apply simulates_new_array|].
    destruct (np_any_iscomplex _).
    - do 2 simulates_pure. do 2 simulates_new.
      eapply simulates_bind_Ok; [apply simulates_new_array|].
      intros t <-. apply simulates_call_obj.
    - simulates_pure. apply simulates_call_obj. }
  intros yi ? <-.
  eapply simulates_bind_Ok; [apply simulates_new_coords_obj|]. intros c Hc.
  eapply simulates_bind_Ok; [apply simulates_coords_setitem|]. intros c' ->.
  rewrite Hc. apply simulates_xr_DataArray_obj.
Qed.

Lemma simulates_view (r : result (ndarray F)) (o : @array_obj F) :
  simulates (F := F) (a ← lift r; mret (view_of o a)) r
            (λ o' v, val o' = v).
Proof. intros h. unfold mbind, M_bind, lift. by destruct r. Qed.

Lemma simulates__interpn_obj RegularGridInterpolator da be fv vectors :
  simulates (_interpn_obj RegularGridInterpolator da be fv vectors)
            (_interpn RegularGridInterpolator (value_of da) be fv vectors)
            (λ o v, val o = v).
Proof.
  unfold _interpn_obj, _interpn. cbn [value_of data dims coords].
  simulates_pure. destruct (np_any_iscomplex _).
  - do 2 simulates_pure. case_decide; [apply simulates_raise|].
    do 2 simulates_new.
    eapply simulates_bind_Ok; [apply simulates_new_array|]. intros t <-.
    simulates_new. apply simulates_view.
  - simulates_pure. case_decide; [apply simulates_raise|].
    simulates_new. apply simulates_view.
Qed.

Lemma simulates_interpn_obj RegularGridInterpolator self be fv ext vectors :
  simulates (interpn_obj RegularGridInterpolator self be fv ext vectors)
            (interpn RegularGridInterpolator (value_of self) be fv ext vectors)
            (λ o v, value_of o = v).
Proof.
  unfold interpn_obj, interpn, copy_copy, copy_deepcopy.
  eapply simulates_bind_Ok; [apply simulates_squeeze_drop_obj|].
  intros da Hda. cbv zeta. rewrite <-Hda. cbn [value_of data dims coords].
  repeat case_decide.
  - eapply simulates_bind_Ok; [apply simulates_new_array|]. intros d ->.
    simulates_pure.
    eapply simulates_bind; [apply simulates_xr_DataArray_obj|].
    intros ? ? <-. apply simulates_xr_transpose_obj.
  - eapply simulates_bind_Ok; [apply simulates_deepcopy_xr_obj|].
    intros d Hd. change (mkDataArray _ _ _) with (value_of da).
    rewrite <-Hd.
    eapply simulates_bind; [apply simulates__interpn_obj|].
    intros ? ? <-. apply simulates_xr_DataArray_obj.
  - destruct ext; [|apply simulates_raise].
    eapply simulates_bind_Ok; [apply simulates_deepcopy_xr_obj|].
    intros d Hd. change (mkDataArray _ _ _) with (value_of da).
    rewrite <-Hd.
    eapply simulates_bind; [apply simulates__interpn_obj|].
    intros ? ? <-. simulates_pure.
    eapply simulates_bind; [apply simulates_xr_DataArray_obj|].
    intros ? ? <-. apply simulates_xr_transpose_obj.
  - destruct ext; [|apply simulates_raise].
    eapply simulates_bind_Ok; [apply simulates_deepcopy_xr_obj|].
    intros d _. apply simulates_raise.
  - apply simulates_raise.
Qed.

Lemma simulates_smart_obj scipy_interp1d RegularGridInterpolator self be fv
    rep ext vectors :
  simulates
    (smart_obj scipy_interp1d RegularGridInterpolator self be fv rep ext
               vectors)
    (smart scipy_interp1d RegularGridInterpolator (value_of self) be fv rep
           ext vectors)
    (λ o v, value_of o = v).
Proof.
  unfold smart_obj, smart. case_decide.
  - apply simulates_interp1d_obj.
  - apply simulates_interpn_obj.
Qed.
End simulation_program.

(** ** What a call returns is in the store *)

(** The buffer and the coordinates of an array are among the objects known
    to be in the store. *)
Ltac cells_in_store :=
  unfold xr_cells; simpl; set_unfold; intros ? [-> | ->]; tauto.

Section allocation.
Context {F : Type} `{Float F}.
Implicit Types (X : gset loc).

Lemma allocates_ret {A} X (a : A) locs :
  locs a ⊆ X → allocates (F := F) X (mret a) locs.
Proof.
  intros Ha h HX. split; [done|]. intros a' [= <-]. simpl. set_solver.
Qed.

Lemma allocates_lift {A} X (r : result A) :
  allocates (F := F) X (lift r) (λ _, ∅).
Proof. intros h HX. split; [done|]. intros a _. set_solver. Qed.

Lemma allocates_raise {A} X e (locs : A → gset loc) :
  allocates (F := F) X (lift (Raise e)) locs.
Proof. by intros h HX. Qed.

Lemma allocates_bind {A B} X (m : M A) (f : A → M B) locs locs' :
  allocates (F := F) X m locs →
  (∀ a, allocates (X ∪ locs a) (f a) locs') →
  allocates X (m ≫= f) locs'.
Proof.
  intros Hm Hf h HX. destruct (Hm h HX) as [Hd Ha].
  unfold mbind, M_bind. destruct (m h) as [[a|e] h1]; simpl in *; [|done].
  destruct (Hf a h1) as [Hd' Hb].
  { apply union_least; [by etrans|by apply Ha]. }
  split; [by etrans|done].
Qed.

Lemma allocates_conseq {A} X X' (m : M A) locs :
  X' ⊆ X → allocates (F := F) X' m locs → allocates X m locs.
Proof. intros HX Hm h Hh. apply Hm. set_solver. Qed.

Lemma allocates_alloc X (c : @cell F) : allocates X (alloc c) (λ l, {[l]}).
Proof.
  intros h HX. unfold alloc. simpl. rewrite dom_insert. split; [set_solver|].
  intros a [= <-]. set_solver.
Qed.

Lemma allocates_new_array X (a : ndarray F) :
  allocates X (new_array a) (λ o, {[base o]}).
Proof.
  eapply allocates_bind; [apply allocates_alloc|]. intros l.
  apply allocates_ret. simpl. set_solver.
Qed.

Lemma allocates_new_coords_obj X (m : list (string * list F)) :
  allocates X (new_coords_obj m) (λ c, {[cloc c]}).
Proof.
  eapply allocates_bind; [apply allocates_alloc|]. intros l.
  apply allocates_ret. simpl. set_solver.
Qed.

Lemma allocates_coords_setitem X (c : @coords_obj F) k v :
  cloc c ∈ X → allocates X (coords_setitem c k v) (λ c', {[cloc c']}).
Proof.
  intros Hc h HX. unfold coords_setitem, store_cell, mbind, M_bind. simpl.
  rewrite dom_insert. split; [set_solver|]. intros a [= <-]. set_solver.
Qed.

Lemma allocates_call_obj X (r : result (ndarray F)) :
  allocates X (call_obj r) (λ o, {[base o]}).
Proof.
  eapply allocates_bind; [apply allocates_lift|]. intros a.
  apply allocates_new_array.
Qed.

Lemma allocates_deepcopy_xr_obj X (o : @xr_obj F) :
  allocates X (deepcopy_xr_obj o) xr_cells.
Proof.
  eapply allocates_bind; [apply allocates_new_array|]. intros d.
  eapply allocates_bind; [apply allocates_new_coords_obj|]. intros c.
  apply allocates_ret. cells_in_store.
Qed.

Lemma allocates_xr_DataArray_obj X (d : @array_obj F) cs ds :
  base d ∈ X → allocates X (xr_DataArray_obj d cs ds) xr_cells.
Proof.
  intros Hd. eapply allocates_bind; [apply allocates_lift|]. intros u.
  eapply allocates_bind; [apply allocates_new_coords_obj|]. intros c.
  apply allocates_ret. cells_in_store.
Qed.

Lemma allocates_squeeze_drop_obj X (o : @xr_obj F) :
  base (xdata o) ∈ X → allocates X (squeeze_drop_obj o) xr_cells.
Proof.
  intros Hd. eapply allocates_bind; [apply allocates_new_coords_obj|].
  intros c. apply allocates_ret. cells_in_store.
Qed.

Lemma allocates_xr_transpose_obj X (o : @xr_obj F) names :
  base (xdata o) ∈ X → allocates X (xr_transpose_obj o names) xr_cells.
Proof.
  intros Hd. eapply allocates_bind; [apply allocates_lift|]. intros v.
  eapply allocates_bind; [apply allocates_new_coords_obj|]. intros c.
  apply allocates_ret. cells_in_store.
Qed.
End allocation.

(** One step of a call: a check, a new object, or an object made of
    objects that are in the store. *)
Ltac allocates_pure :=
  eapply allocates_bind; [apply allocates_lift|intros ?].

Ltac known := simpl; unfold xr_cells; set_unfold; tauto.

Ltac allocates_new :=
  eapply allocates_bind;
  [first [apply allocates_call_obj | apply allocates_new_array
         | apply allocates_deepcopy_xr_obj | apply allocates_new_coords_obj
         | apply allocates_coords_setitem; known
         | apply allocates_xr_DataArray_obj; known
         | apply allocates_xr_transpose_obj; known]
  |intros ?].

Section allocation_program.
Context {F : Type} `{Float F}.
Implicit Types (scipy_interp1d : interp1d_kernel_t F)
  (RegularGridInterpolator : grid_kernel_t F) (X : gset loc)
  (self da : @xr_obj F) (fv : pyvalue F) (vectors : list (string * list F)).

Lemma allocates_interp1d_obj X scipy_interp1d self be fv ext rep vectors :
  allocates X (interp1d_obj scipy_interp1d self be fv ext rep vectors)
            xr_cells.
Proof.
  unfold interp1d_obj. do 5 allocates_pure.
  eapply (allocates_bind _ _ _ (λ o, {[base o]})).
  { destruct (_ && _); [apply allocates_new_array|].
    destruct (np_any_iscomplex _).
    - do 2 allocates_pure. do 3 allocates_new. apply allocates_call_obj.
    - allocates_pure. apply allocates_call_obj. }
  intros yi. unfold deepcopy_coords_obj. do 2 allocates_new.
  apply allocates_xr_DataArray_obj. known.
Qed.

Lemma allocates__interpn_obj X RegularGridInterpolator da be fv vectors :
  allocates X (_interpn_obj RegularGridInterpolator da be fv vectors)
            (λ o, {[base o]}).
Proof.
  unfold _interpn_obj. allocates_pure. destruct (np_any_iscomplex _).
  - do 2 allocates_pure.
    case_decide; [apply allocates_raise|].
    do 4 allocates_new. allocates_pure. apply allocates_ret. known.
  - allocates_pure.
    case_decide; [apply allocates_raise|].
    allocates_new. allocates_pure. apply allocates_ret. known.
Qed.

Lemma allocates_interpn_obj X RegularGridInterpolator self be fv ext vectors :
  base (xdata self) ∈ X →
  allocates X (interpn_obj RegularGridInterpolator self be fv ext vectors)
            xr_cells.
Proof.
  intros Hself. unfold interpn_obj, copy_copy_obj.
  eapply allocates_bind; [by apply allocates_squeeze_drop_obj|]. intros da.
  cbv zeta. repeat case_decide.
  - allocates_new. allocates_pure. allocates_new.
    apply allocates_xr_transpose_obj. known.
  - allocates_new.
    eapply allocates_bind; [apply allocates__interpn_obj|]. intros i_data.
    apply allocates_xr_DataArray_obj. known.
  - destruct ext; [|apply allocates_raise]. allocates_new.
    eapply allocates_bind; [apply allocates__interpn_obj|]. intros i_data.
    allocates_pure. allocates_new.
    apply allocates_xr_transpose_obj. known.
  - destruct ext; [|apply allocates_raise]. allocates_new.
    apply allocates_raise.
  - apply allocates_raise.
Qed.

Lemma allocates_smart_obj X scipy_interp1d RegularGridInterpolator self be fv
    rep ext vectors :
  base (xdata self) ∈ X →
  allocates X
    (smart_obj scipy_interp1d RegularGridInterpolator self be fv rep ext
               vectors)
    xr_cells.
Proof.
  intros Hself. unfold smart_obj. case_decide.
  - apply allocates_interp1d_obj.
  - by apply allocates_interpn_obj.
Qed.
End allocation_program.

(** ** No call changes the array it is made on *)

Section frame.
Context {F : Type} `{Float F}.
Implicit Types (scipy_interp1d : interp1d_kernel_t F)
  (RegularGridInterpolator : grid_kernel_t F)
  (self : @xr_obj F) (fv : pyvalue F) (vectors : list (string * list F)).

(** A call that leaves the store it starts from as it is and returns
    objects that are new to it leaves its input alone. *)
Lemma leaves_input_intro (h : gmap loc (@cell F)) self (m : M xr_obj) :
  in_store h self →
  preserves h m (fresh_xr h) → allocates (dom h) m xr_cells →
  leaves_input h self m.
Proof.
  intros Hin Hp Ha. destruct (Hp h) as [Hsub Hfresh]; [done|].
  destruct (Ha h) as [_ Hout]; [done|].
  split; [done|]. split.
  - intros l Hl. apply Hin, elem_of_dom in Hl as [c Hc].
    rewrite Hc. by apply (lookup_weaken h).
  - intros out Ho. destruct (Hfresh out Ho) as [Hd Hc].
    assert (xr_cells out ## dom h) as Hdisj.
    { unfold xr_cells, fresh_array, fresh_coords in *. set_unfold.
      intros l [-> | ->]; tauto. }
    split; [by apply Hout|]. split; [done|].
    intros l Hl Hl'. apply (Hdisj l); [done|by apply Hin].
Qed.

(** The calls on the store compute what the operations compute on the
    values of the objects. *)
Lemma simulates_value (m : M (@xr_obj F)) (r : result (DataArray F)) :
  simulates (F := F) m r (λ o v, value_of o = v) →
  ∀ h, value_of <$> (m h).1 = r.
Proof.
  intros Hm h. specialize (Hm h).
  destruct (m h).1 as [a|e], r as [b|e']; simpl in *; by subst.
Qed.

Theorem store_calls_compute scipy_interp1d RegularGridInterpolator self be fv
    rep ext vectors (h : gmap loc (@cell F)) :
  value_of <$> (interp1d_obj scipy_interp1d self be fv ext rep vectors h).1
    = interp1d scipy_interp1d (value_of self) be fv ext rep vectors
  ∧ value_of <$> (interpn_obj RegularGridInterpolator self be fv ext
                              vectors h).1
    = interpn RegularGridInterpolator (value_of self) be fv ext vectors
  ∧ value_of <$> (smart_obj scipy_interp1d RegularGridInterpolator self be fv
                            rep ext vectors h).1
    = smart scipy_interp1d RegularGridInterpolator (value_of self) be fv rep
            ext vectors.
Proof.
  split; [|split]; apply simulates_value.
  - apply simulates_interp1d_obj.
  - apply simulates_interpn_obj.
  - apply simulates_smart_obj.
Qed.

(** C8.  No operation changes the array it is called on.  Let the array
    [self] be in the store [h]: its buffer and its coordinate mapping are
    objects of [h].  After [interp1d], [interpn] or [smart], whatever the
    options, the request and the outcome, every object of [h] is what it
    was, so that the buffer and the coordinate vectors of [self] are
    unchanged (its dimension names are a tuple); and when the call returns,
    the buffer and the coordinate mapping of the array returned are objects
    of the new store that were not in [h], so that they are not those of
    [self]: the two arrays share no mutable state. *)
Theorem operations_leave_input scipy_interp1d RegularGridInterpolator self be
    fv rep ext vectors (h : gmap loc (@cell F)) :
  in_store h self →
  leaves_input h self (interp1d_obj scipy_interp1d self be fv ext rep vectors)
  ∧ leaves_input h self
      (interpn_obj RegularGridInterpolator self be fv ext vectors)
  ∧ leaves_input h self
      (smart_obj scipy_interp1d RegularGridInterpolator self be fv rep ext
                 vectors).
Proof.
  intros Hin.
  assert (base (xdata self) ∈ dom h) as Hbase.
  { apply Hin. unfold xr_cells. set_unfold. tauto. }
  split; [|split]; apply leaves_input_intro; try done.
  - apply preserves_interp1d_obj.
  - apply allocates_interp1d_obj.
  - apply preserves_interpn_obj.
  - by apply allocates_interpn_obj.
  - apply preserves_smart_obj.
  - by apply allocates_smart_obj.
Qed.
End frame.

Section frame_scenarios.
Import Exact Scenario.

Lemma in_store_object_at {F} l1 l2 (da : DataArray F) :
  in_store (store_of (object_at l1 l2 da)) (object_at l1 l2 da).
Proof.
  unfold in_store, xr_cells, store_of, object_at. simpl.
  rewrite !dom_insert. set_unfold. tauto.
Qed.

Lemma operations_leave_input_witness :
  in_store (store_of (object_at 0 1 array_A)) (object_at 0 1 array_A)
  ∧ leaves_input (store_of (object_at 0 1 array_A)) (object_at 0 1 array_A)
      (interp1d_obj linear_kernel (object_at 0 1 array_A) false PyNone true
                    true [("t", [1 # 2; 3 # 2])])
  ∧ leaves_input (store_of (object_at 0 1 array_A)) (object_at 0 1 array_A)
      (interpn_obj grid_kernel (object_at 0 1 array_A) false PyNone true
                   [("t", [1 # 2; 3 # 2])])
  ∧ leaves_input (store_of (object_at 0 1 array_A)) (object_at 0 1 array_A)
      (smart_obj linear_kernel grid_kernel (object_at 0 1 array_A) false
                 PyNone true true [("t", [1 # 2; 3 # 2])]).
Proof.
  split; [apply in_store_object_at|].
  exact (operations_leave_input linear_kernel grid_kernel
           (object_at 0 1 array_A) false PyNone true true
           [("t", [1 # 2; 3 # 2])] (store_of (object_at 0 1 array_A))
           (in_store_object_at 0 1 array_A)).
Defined.

(** Scenario A in a store: the array at the locations 0 and 1; the result
    has its buffer at 2 and its coordinates at 4. *)
Example store_scenario_A :
  let o := object_at 0 1 array_A in
  let run := interp1d_obj linear_kernel o false PyNone true true
               [("t", [1 # 2; 3 # 2])] (store_of o) in
  run.1 = Ok (XrObj (ArrayObj 2 (NdArray [2] [real 15; real 25])) ["t"]
                    (CoordsObj 4 [("t", [1 # 2; 3 # 2])]))
  ∧ run.2 !! 0 = Some (Buffer (data array_A))
  ∧ run.2 !! 1 = Some (Coords (coords array_A)).
Proof. vm_compute. by repeat split. Qed.

(** Scenario C in a store, through case 2 of [interpn]: the result is a
    view of the copy at 3 of the squeezed data, not of the buffer at 0. *)
Example store_scenario_C :
  let o := object_at 0 1 array_C in
  let run := interpn_obj grid_kernel o false PyNone true
               [("y", points [10; 20]%Z); ("x", points [0; 1]%Z)]
               (store_of o) in
  run.1 = Ok (XrObj (ArrayObj 3 (NdArray [2; 2] (replicate 4 (real 5))))
                    ["y"; "x"]
                    (CoordsObj 5 [("y", points [10; 20]%Z);
                                  ("x", points [0; 1]%Z)]))
  ∧ run.2 !! 0 = Some (Buffer (data array_C))
  ∧ run.2 !! 3 = Some (Buffer (NdArray [] [real 5])).
Proof. vm_compute. by repeat split. Qed.
End frame_scenarios.

(** * Further properties of the program *)

(** ** [interp1d]: what it returns and how it fails *)

Section dict_facts.
Context {A : Type}.



Lemma dict_setitem_keys (m : list (string * A)) k v :
  k ∈ m.*1 → (dict_setitem m k v).*1 = m.*1.
Proof.
  induction m as [|[k0 v0] m IH]; simpl; [by intros ?%elem_of_nil|].
  case_decide; subst; [done|].
  intros [?|Hin]%elem_of_cons; [done|]. rewrite fmap_cons. f_equal.
  by apply IH.
Qed.
End dict_facts.

Section constructor_inv.
Context {F : Type} `{Float F}.



End constructor_inv.

Section interp1d_more.
Context {F : Type} `{Float F}.
Implicit Types (scipy_interp1d : interp1d_kernel_t F) (self : DataArray F)
  (fv : pyvalue F) (vectors rest : list (string * list F)) (xi : list F).




End interp1d_more.

(** ** The exceptions of the calls *)









Section raises_facts.
Context {F : Type} `{Float F}.








End raises_facts.

Section interp1d_failures.
Context {F : Type} `{Float F}.
Implicit Types (scipy_interp1d : interp1d_kernel_t F) (self : DataArray F)
  (fv : pyvalue F) (vectors rest : list (string * list F)) (xi : list F).


End interp1d_failures.

(** ** [interpn]: what it returns *)

Section layout_inv.
Context {F : Type} `{Float F}.









End layout_inv.

Section interpn_layout.
Context {F : Type} `{Float F}.
Implicit Types (RegularGridInterpolator : grid_kernel_t F)
  (self : DataArray F) (fv : pyvalue F) (vectors : list (string * list F)).

End interpn_layout.

(** ** [interpn]: the requests that no case handles *)


Section interpn_unhandled.
Context {F : Type} `{Float F}.
Implicit Types (scipy_interp1d : interp1d_kernel_t F)
  (RegularGridInterpolator : grid_kernel_t F)
  (self : DataArray F) (fv : pyvalue F) (vectors : list (string * list F)).



End interpn_unhandled.

(** ** [interpn]: the axes of extent 1 *)

Section squeeze_idempotent.
Context {F : Type} `{Float F}.
Implicit Types (RegularGridInterpolator : grid_kernel_t F)
  (self : DataArray F) (fv : pyvalue F) (vectors : list (string * list F)).




End squeeze_idempotent.

(** ** Case 3 on a request in the order of the axes *)

Section case3_array_order.
Context {F : Type} `{Float F}.
Implicit Types (RegularGridInterpolator : grid_kernel_t F)
  (self : DataArray F) (fv : pyvalue F) (vectors : list (string * list F)).



End case3_array_order.

(** ** [_interpn] and the exceptions of [interpn] *)

Section interpn_failures.
Context {F : Type} `{Float F}.
Implicit Types (RegularGridInterpolator : grid_kernel_t F)
  (self da : DataArray F) (fv : pyvalue F)
  (vectors : list (string * list F)).







End interpn_failures.

(** ** Case 3 and the order of the request *)

Section case3_request_order.
Context {F : Type} `{Float F}.
Implicit Types (RegularGridInterpolator : grid_kernel_t F)
  (self da : DataArray F) (fv : pyvalue F)
  (vectors : list (string * list F)).



End case3_request_order.

(** ** The further properties at inputs of the scenarios *)

Section further_witnesses.
Import Exact Scenario.
















End further_witnesses.
